(** * The in-memory document store of the ration-fraud backend ([backend/mock_db.py])

    The repository documents the mock MongoDB replacement in its markdown
    notes: [MockCursor] (constructor, [sort], [to_list]), the [$or] loop of
    [MockCollection._matches_query] and the call pattern
    [find().sort().to_list()].  Those fragments are embedded as they are
    written.  The parts the notes elide ("... operator handling logic ...",
    "... sorting logic ...", insert, update and the copies made by the read
    operations) are modelled from the specification and say so in their doc
    comments.

    Python dictionaries are association lists (first occurrence wins on
    lookup, [dict.update] overwrites in place or appends).  Top-level
    documents are heap objects (a [gmap] from locations to documents), so
    that aliasing between the collection, cursors and callers is explicit;
    nested values are immutable. *)

From Stdlib Require Import String Ascii ZArith Bool List Lia.
From Stdlib Require Import Sorting.Permutation Sorting.Sorted.
From stdpp Require Import base gmap list strings.

#[local] Set Warnings "-register-all".

(* ------------------------------------------------------------------ *)
(** ** Values and documents *)

Inductive value : Type :=
  | VStr (s : string)
  | VNum (z : Z)
  | VBool (b : bool)
  | VNull
  | VDoc (fs : list (string * value))
  | VList (vs : list value).

Abbreviation doc := (list (string * value)).

(** Nested induction principle for [value]. *)
Section value_ind_nested.
Variable P : value -> Prop.
Hypothesis HStr : forall s, P (VStr s).
Hypothesis HNum : forall z, P (VNum z).
Hypothesis HBool : forall b, P (VBool b).
Hypothesis HNull : P VNull.
Hypothesis HDoc : forall fs, Forall (fun kv => P (snd kv)) fs -> P (VDoc fs).
Hypothesis HList : forall vs, Forall P vs -> P (VList vs).

Fixpoint value_ind' (v : value) : P v :=
  match v with
  | VStr s => HStr s
  | VNum z => HNum z
  | VBool b => HBool b
  | VNull => HNull
  | VDoc fs =>
      HDoc fs ((fix go (fs : list (string * value)) :
                  Forall (fun kv => P (snd kv)) fs :=
                  match fs with
                  | [] => List.Forall_nil _
                  | kv :: r => List.Forall_cons _ _ _ (value_ind' (snd kv)) (go r)
                  end) fs)
  | VList vs =>
      HList vs ((fix go (vs : list value) : Forall P vs :=
                   match vs with
                   | [] => List.Forall_nil _
                   | w :: r => List.Forall_cons _ _ _ (value_ind' w) (go r)
                   end) vs)
  end.
End value_ind_nested.

(** Type-sensitive structural equality ([==] in the matcher). *)
Fixpoint value_eqb (a b : value) {struct a} : bool :=
  match a, b with
  | VStr s, VStr t => String.eqb s t
  | VNum x, VNum y => Z.eqb x y
  | VBool x, VBool y => Bool.eqb x y
  | VNull, VNull => true
  | VDoc fs, VDoc gs =>
      (fix go (fs gs : list (string * value)) : bool :=
         match fs, gs with
         | [], [] => true
         | (k, v) :: fs', (k', v') :: gs' =>
             String.eqb k k' && value_eqb v v' && go fs' gs'
         | _, _ => false
         end) fs gs
  | VList vs, VList ws =>
      (fix go (vs ws : list value) : bool :=
         match vs, ws with
         | [], [] => true
         | v :: vs', w :: ws' => value_eqb v w && go vs' ws'
         | _, _ => false
         end) vs ws
  | _, _ => false
  end.

(** [doc.get(key)]: first occurrence of the key. *)
Fixpoint lookup_field (k : string) (d : doc) : option value :=
  match d with
  | [] => None
  | (k', v) :: r => if String.eqb k k' then Some v else lookup_field k r
  end.

(** Equality of a possibly absent field with a literal: absent never matches. *)
Definition opt_eqb (fv : option value) (lit : value) : bool :=
  match fv with
  | Some v => value_eqb v lit
  | None => false
  end.

(** The ordering used by [$gt]/[$lt] and by [sort]: numbers numerically,
    strings lexicographically, any other pair is unordered. *)
Definition val_lt (a b : value) : bool :=
  match a, b with
  | VNum x, VNum y => Z.ltb x y
  | VStr s, VStr t => String.ltb s t
  | _, _ => false
  end.

Definition val_le (a b : value) : bool :=
  match a, b with
  | VNum x, VNum y => Z.leb x y
  | VStr s, VStr t => String.leb s t
  | _, _ => false
  end.

(** Whether two values are mutually ordered. *)
Definition comparable (x y : value) : bool :=
  match x, y with
  | VNum _, VNum _ | VStr _, VStr _ => true
  | _, _ => false
  end.

(* ------------------------------------------------------------------ *)
(** ** Case-insensitive pattern search ([re.search(p, s, re.IGNORECASE)])

    Modelled from the spec: the regular-expression engine behind [$regex]
    is not in the repository; the notes say it is limited to simple
    patterns.  The subset here is literal characters, [.], [*], and the
    anchors [^] and [$]; case-insensitivity folds both pattern and subject
    to lower case. *)

Fixpoint match_here (re t : string) {struct re} : bool :=
  match re with
  | EmptyString => true
  | String c re' =>
      match re' with
      | String c2 re'' =>
          if Ascii.eqb c2 "*" then
            (fix star (t : string) : bool :=
               match_here re'' t ||
               match t with
               | String tc t' => (Ascii.eqb c "." || Ascii.eqb c tc) && star t'
               | EmptyString => false
               end) t
          else
            match t with
            | String tc t' => (Ascii.eqb c "." || Ascii.eqb c tc) && match_here re' t'
            | EmptyString => false
            end
      | EmptyString =>
          if Ascii.eqb c "$" then
            match t with EmptyString => true | String _ _ => false end
          else
            match t with
            | String tc t' => (Ascii.eqb c "." || Ascii.eqb c tc) && match_here re' t'
            | EmptyString => false
            end
      end
  end.

(** Try the pattern at every position of the subject, the empty suffix included. *)
Fixpoint scan (re t : string) : bool :=
  match_here re t ||
  match t with
  | String _ t' => scan re t'
  | EmptyString => false
  end.

Definition regex_search (re t : string) : bool :=
  match re with
  | String c re' => if Ascii.eqb c "^" then match_here re' t else scan re t
  | EmptyString => true
  end.

Definition lower_ascii (c : ascii) : ascii :=
  let n := nat_of_ascii c in
  if (65 <=? n)%nat && (n <=? 90)%nat then ascii_of_nat (n + 32) else c.

Definition upper_ascii (c : ascii) : ascii :=
  let n := nat_of_ascii c in
  if (97 <=? n)%nat && (n <=? 122)%nat then ascii_of_nat (n - 32) else c.

Fixpoint lower (s : string) : string :=
  match s with
  | EmptyString => EmptyString
  | String c s' => String (lower_ascii c) (lower s')
  end.

Fixpoint upper (s : string) : string :=
  match s with
  | EmptyString => EmptyString
  | String c s' => String (upper_ascii c) (upper s')
  end.

Definition regex_icase (pattern subject : string) : bool :=
  regex_search (lower pattern) (lower subject).

(* ------------------------------------------------------------------ *)
(** ** Query matcher ([MockCollection._matches_query]) *)

(** Failures a query evaluation can raise: an unrecognized operator
    (the spec's MalformedQuery) and the [TypeError]/[AttributeError]
    Python raises when the [$or] loop iterates a value that is not a
    sequence of mappings. *)
Inductive error : Type :=
  | MalformedQuery (op : string)
  | TypeError.

Inductive result (A : Type) : Type :=
  | Ok (a : A)
  | Err (e : error).
Arguments Ok {A} a.
Arguments Err {A} e.

Definition known_ops : list string :=
  ["$eq"; "$ne"; "$gt"; "$gte"; "$lt"; "$lte"; "$in"; "$regex"].

Definition known_op (op : string) : bool := existsb (String.eqb op) known_ops.

(** Modelled from the spec: one operator of an operator mapping (the
    notes elide "... operator handling logic ..."; spec section 4.1).
    Ordering operators hold only between mutually ordered values; a type
    mismatch is a non-match; an unknown operator raises. *)
Definition eval_op (fv : option value) (op : string) (arg : value) : result bool :=
  if String.eqb op "$eq" then Ok (opt_eqb fv arg)
  else if String.eqb op "$ne" then Ok (negb (opt_eqb fv arg))
  else if String.eqb op "$gt" then
    Ok (match fv with Some x => val_lt arg x | None => false end)
  else if String.eqb op "$gte" then
    Ok (match fv with Some x => val_le arg x | None => false end)
  else if String.eqb op "$lt" then
    Ok (match fv with Some x => val_lt x arg | None => false end)
  else if String.eqb op "$lte" then
    Ok (match fv with Some x => val_le x arg | None => false end)
  else if String.eqb op "$in" then
    Ok (match arg, fv with
        | VList vs, Some x => existsb (value_eqb x) vs
        | _, _ => false
        end)
  else if String.eqb op "$regex" then
    Ok (match arg, fv with
        | VStr p, Some (VStr s) => regex_icase p s
        | _, _ => false
        end)
  else Err (MalformedQuery op).

(** Modelled from the spec: all operators of one mapping must hold,
    evaluated in order, the first failing one deciding. *)
Fixpoint eval_ops (fv : option value) (ops : list (string * value)) : result bool :=
  match ops with
  | [] => Ok true
  | (op, arg) :: rest =>
      match eval_op fv op arg with
      | Ok true => eval_ops fv rest
      | Ok false => Ok false
      | Err e => Err e
      end
  end.

(** Modelled from the spec: one ordinary key of a query; a mapping is an
    operator mapping, anything else a literal compared for equality. *)
Definition match_field (d : doc) (k : string) (v : value) : result bool :=
  match v with
  | VDoc ops => eval_ops (lookup_field k d) ops
  | _ => Ok (opt_eqb (lookup_field k d) v)
  end.

(** [_matches_query(doc, query)] as in the notes:
<<
    for key, value in query.items():
        if key == "$or":
            if not any(self._matches_query(doc, cond) for cond in value):
                return False
            continue
        # ... operator handling logic ...
>>
    followed by [return True].  [any] stops at the first true clause;
    iterating a dict yields its keys and iterating a string its
    characters, on which [.items()] raises; iterating a number raises. *)
Fixpoint matches_v (d : doc) (qv : value) {struct qv} : result bool :=
  match qv with
  | VDoc q =>
      (fix go (q : list (string * value)) : result bool :=
         match q with
         | [] => Ok true
         | (k, v) :: rest =>
             if String.eqb k "$or" then
               let any_clause :=
                 match v with
                 | VList cs =>
                     (fix any_of (cs : list value) : result bool :=
                        match cs with
                        | [] => Ok false
                        | c :: cs' =>
                            match matches_v d c with
                            | Ok true => Ok true
                            | Ok false => any_of cs'
                            | Err e => Err e
                            end
                        end) cs
                 | VDoc [] => Ok false
                 | VStr EmptyString => Ok false
                 | _ => Err TypeError
                 end in
               match any_clause with
               | Ok true => go rest
               | Ok false => Ok false
               | Err e => Err e
               end
             else
               match match_field d k v with
               | Ok true => go rest
               | Ok false => Ok false
               | Err e => Err e
               end
         end) q
  | _ => Err TypeError
  end.

Definition matches (d q : doc) : result bool := matches_v d (VDoc q).

(** Structural well-formedness of a query specification (spec section 3):
    [$or] maps to a sequence of nested specifications, and every operator
    mapping uses recognized operators only. *)
Fixpoint wf_v (qv : value) : bool :=
  match qv with
  | VDoc q =>
      (fix go (q : list (string * value)) : bool :=
         match q with
         | [] => true
         | (k, v) :: rest =>
             (if String.eqb k "$or" then
                match v with
                | VList cs =>
                    (fix all_wf (cs : list value) : bool :=
                       match cs with
                       | [] => true
                       | c :: cs' => wf_v c && all_wf cs'
                       end) cs
                | _ => false
                end
              else
                match v with
                | VDoc ops => forallb (fun kv => known_op (fst kv)) ops
                | _ => true
                end) && go rest
         end) q
  | _ => false
  end.

Definition wf_query (q : doc) : bool := wf_v (VDoc q).

(** The query mentions an operator mapping with an unrecognized key. *)
Fixpoint has_unknown_op_v (qv : value) : bool :=
  match qv with
  | VDoc q =>
      (fix go (q : list (string * value)) : bool :=
         match q with
         | [] => false
         | (k, v) :: rest =>
             (if String.eqb k "$or" then
                match v with
                | VList cs =>
                    (fix any_unknown (cs : list value) : bool :=
                       match cs with
                       | [] => false
                       | c :: cs' => has_unknown_op_v c || any_unknown cs'
                       end) cs
                | _ => false
                end
              else
                match v with
                | VDoc ops => negb (forallb (fun kv => known_op (fst kv)) ops)
                | _ => false
                end) || go rest
         end) q
  | _ => false
  end.

Definition has_unknown_op (q : doc) : bool := has_unknown_op_v (VDoc q).

(** The matcher's decision where it has one. *)
Definition matchb (d q : doc) : bool :=
  match matches d q with Ok b => b | Err _ => false end.

Example matches_or_ex :
  matches [("a", VNum 1)] [("$or", VList [VDoc [("a", VNum 2)]; VDoc [("a", VNum 1)]])] = Ok true.
Proof. reflexivity. Qed.

Example matches_regex_ex :
  matches [("name", VStr "Alice")] [("name", VDoc [("$regex", VStr "alice")])] = Ok true.
Proof. reflexivity. Qed.

(* ------------------------------------------------------------------ *)
(** ** Stable sorting by a key ([MockCursor.sort])

    Modelled from the spec: the notes elide "... sorting logic ..."; the
    spec requires the [$gt]/[$lt] ordering with missing fields lowest.
    Ascending order is a stable insertion sort; descending order is its
    reverse, as the spec fixes it (section 8: ascending then descending
    yields exactly the reverse of the ascending result). *)

Section sorting.
Context {A : Type} (lt : A -> A -> bool).

Fixpoint insert_by (x : A) (l : list A) : list A :=
  match l with
  | [] => [x]
  | y :: ys => if lt y x then y :: insert_by x ys else x :: y :: ys
  end.

Fixpoint sort_by (l : list A) : list A :=
  match l with
  | [] => []
  | x :: xs => insert_by x (sort_by xs)
  end.
End sorting.

(** Sort keys: an absent field is below every present value. *)
Definition key_lt (a b : option value) : bool :=
  match a, b with
  | None, Some _ => true
  | Some x, Some y => val_lt x y
  | _, _ => false
  end.

Definition sort_asc {A} (key : A -> option value) (l : list A) : list A :=
  sort_by (fun x y => key_lt (key x) (key y)) l.

Definition sort_desc {A} (key : A -> option value) (l : list A) : list A :=
  rev (sort_asc key l).

(** Whether an element has no sort key. *)
Definition key_missing {A} (key : A -> option value) (x : A) : bool :=
  match key x with None => true | Some _ => false end.

(* ------------------------------------------------------------------ *)
(** ** Store state

    One collection of the store: its documents are heap objects, the
    collection is the list of their locations in storage order.  Cursors
    are objects too (their identity is the location in [cursors]); each
    holds the list of document objects it returns.  [uuid_ctr] counts the
    calls to the external identity generator. *)

Record db : Type := mkDB {
  heap : gmap nat doc;
  next_loc : nat;
  coll : list nat;
  cursors : gmap nat (list nat);
  next_cur : nat;
  uuid_ctr : nat
}.

Definition empty_db : db := mkDB ∅ 0 [] ∅ 0 0.

Definition set_heap (h : gmap nat doc) (st : db) : db :=
  mkDB h (next_loc st) (coll st) (cursors st) (next_cur st) (uuid_ctr st).
Definition set_coll (c : list nat) (st : db) : db :=
  mkDB (heap st) (next_loc st) c (cursors st) (next_cur st) (uuid_ctr st).
Definition set_cursors (cs : gmap nat (list nat)) (st : db) : db :=
  mkDB (heap st) (next_loc st) (coll st) cs (next_cur st) (uuid_ctr st).

(** The stored documents, in storage order. *)
Definition coll_docs (st : db) : list doc :=
  omap (fun l => heap st !! l) (coll st).

(** A state and error monad for the collection operations. *)
Definition M (A : Type) : Type := db -> result (A * db).

Definition ret {A} (a : A) : M A := fun st => Ok (a, st).
Definition bind {A B} (m : M A) (k : A -> M B) : M B :=
  fun st => match m st with Ok (a, st') => k a st' | Err e => Err e end.
Definition lift {A} (r : result A) : M A :=
  fun st => match r with Ok a => Ok (a, st) | Err e => Err e end.
Definition gets {A} (f : db -> A) : M A := fun st => Ok (f st, st).
Definition modify (f : db -> db) : M unit := fun st => Ok (tt, f st).

Notation "'let!' x ':=' m 'in' k" := (bind m (fun x => k))
  (at level 200, x name, m at level 100, k at level 200).

(** Allocate a new document object. *)
Definition alloc (d : doc) : M nat :=
  fun st => Ok (next_loc st,
                mkDB (<[next_loc st := d]> (heap st)) (S (next_loc st)) (coll st)
                     (cursors st) (next_cur st) (uuid_ctr st)).

Fixpoint alloc_all (ds : list doc) : M (list nat) :=
  match ds with
  | [] => ret []
  | d :: ds' => let! l := alloc d in let! ls := alloc_all ds' in ret (l :: ls)
  end.

(** Allocate a new cursor object over [data] ([MockCursor(results)]). *)
Definition new_cursor (data : list nat) : M nat :=
  fun st => Ok (next_cur st,
                mkDB (heap st) (next_loc st) (coll st)
                     (<[next_cur st := data]> (cursors st)) (S (next_cur st)) (uuid_ctr st)).

(** The matching locations of [ls], in order; the first error raised is
    propagated ([[d for d in self.data if self._matches_query(d, query)]]). *)
Fixpoint select (h : gmap nat doc) (q : doc) (ls : list nat) : result (list nat) :=
  match ls with
  | [] => Ok []
  | l :: r =>
      match h !! l with
      | None => select h q r
      | Some d =>
          match matches d q with
          | Err e => Err e
          | Ok b =>
              match select h q r with
              | Err e => Err e
              | Ok r' => Ok (if b then l :: r' else r')
              end
          end
      end
  end.

(** The first matching location, scanning stops there. *)
Fixpoint first_match (h : gmap nat doc) (q : doc) (ls : list nat) : result (option nat) :=
  match ls with
  | [] => Ok None
  | l :: r =>
      match h !! l with
      | None => first_match h q r
      | Some d =>
          match matches d q with
          | Err e => Err e
          | Ok true => Ok (Some l)
          | Ok false => first_match h q r
          end
      end
  end.

Definition truthy (v : value) : bool :=
  match v with
  | VBool b => b
  | VNum z => negb (Z.eqb z 0)
  | VNull => false
  | _ => true
  end.

(** Modelled from the spec: a projection is applied to a returned copy;
    with a truthy entry it keeps the listed fields, otherwise it drops the
    fields listed with a falsy entry (e.g. [{"_id": 0}]). *)
Definition project (p : option doc) (d : doc) : doc :=
  match p with
  | None => d
  | Some ps =>
      if existsb (fun kv => truthy (snd kv)) ps
      then List.filter (fun kv => match lookup_field (fst kv) ps with
                             | Some v => truthy v | None => false end) d
      else List.filter (fun kv => match lookup_field (fst kv) ps with
                             | Some v => truthy v | None => true end) d
  end.

(** [doc[k] = v]: overwrite in place, or append a new key. *)
Fixpoint set_field (k : string) (v : value) (d : doc) : doc :=
  match d with
  | [] => [(k, v)]
  | (k', v') :: r =>
      if String.eqb k k' then (k', v) :: r else (k', v') :: set_field k v r
  end.

(** Modelled from the spec: the shallow merge of [update_one]
    ([doc.update(update)]). *)
Definition merge (d u : doc) : doc :=
  fold_left (fun acc kv => set_field (fst kv) (snd kv) acc) u d.

Fixpoint remove_first (l : nat) (c : list nat) : list nat :=
  match c with
  | [] => []
  | l' :: r => if Nat.eqb l l' then r else l' :: remove_first l r
  end.

(** [MockCursor.to_list(max_length)] as in the notes:
<<
        if max_length is None:
            return self.data
        return self.data[:max_length]
>>
    The result is the cursor's own list of document objects; Python
    slicing with a negative bound drops that many elements from the end. *)
Definition py_prefix {A} (data : list A) (n : Z) : list A :=
  if Z.leb 0 n then take (Z.to_nat n) data
  else take (Z.to_nat (Z.of_nat (length data) + n)) data.

Definition slice_limit {A} (data : list A) (max_length : option Z) : list A :=
  match max_length with
  | None => data
  | Some n => py_prefix data n
  end.

(** Cursor identities stand for Python object references; an identity
    that names no cursor cannot arise and yields [None]. *)
Definition to_list (cid : nat) (max_length : option Z) : M (option (list nat)) :=
  fun st =>
    match cursors st !! cid with
    | Some data => Ok (Some (slice_limit data max_length), st)
    | None => Ok (None, st)
    end.

(** The sort key of a document object. *)
Definition field_key (h : gmap nat doc) (f : string) (l : nat) : option value :=
  match h !! l with Some d => lookup_field f d | None => None end.

(** [MockCursor.sort(key, direction)]: reorders the cursor's own list in
    place and returns the cursor itself ([return self]); [direction = -1]
    is descending. *)
Definition cursor_sort (cid : nat) (f : string) (direction : Z) : M nat :=
  fun st =>
    match cursors st !! cid with
    | Some data =>
        let key := field_key (heap st) f in
        let data' := if Z.eqb direction (-1) then sort_desc key data else sort_asc key data in
        Ok (cid, set_cursors (<[cid := data']> (cursors st)) st)
    | None => Ok (cid, st)
    end.

Section store_ops.
(** The external identity-generation primitive (spec section 6),
    indexed by the number of identities generated so far. *)
Variable uuid : nat -> string.

(** Modelled from the spec: [insert_one] is not in the notes.  An
    [id] field is appended when the document has none; the document is
    stored as a new object appended to the collection and returned. *)
Definition insert (d : doc) : M doc :=
  fun st =>
    let '(d', ctr') :=
      match lookup_field "id" d with
      | Some _ => (d, uuid_ctr st)
      | None => (d ++ [("id"%string, VStr (uuid (uuid_ctr st)))], S (uuid_ctr st))
      end in
    let l := next_loc st in
    Ok (d', mkDB (<[l := d']> (heap st)) (S l) (coll st ++ [l])
                 (cursors st) (next_cur st) ctr').

Fixpoint insert_many (ds : list doc) : M (list doc) :=
  match ds with
  | [] => ret []
  | d :: ds' => let! d1 := insert d in let! r := insert_many ds' in ret (d1 :: r)
  end.

(** [find(query, projection)]: [MockCursor(results)] as in the notes;
    modelled from the spec: [results] holds fresh (projected) copies of
    the matching documents. *)
Definition find (q : doc) (p : option doc) : M nat :=
  let! h := gets heap in
  let! c := gets coll in
  let! ls := lift (select h q c) in
  let! copies := alloc_all (map (project p) (omap (fun l => h !! l) ls)) in
  new_cursor copies.

(** Modelled from the spec: a fresh (projected) copy of the first match. *)
Definition find_one (q : doc) (p : option doc) : M (option nat) :=
  let! h := gets heap in
  let! c := gets coll in
  let! o := lift (first_match h q c) in
  match o with
  | Some l =>
      match h !! l with
      | Some d => let! l' := alloc (project p d) in ret (Some l')
      | None => ret None
      end
  | None => ret None
  end.

(** Modelled from the spec. *)
Definition count_documents (q : doc) : M nat :=
  let! h := gets heap in
  let! c := gets coll in
  let! ls := lift (select h q c) in
  ret (length ls).

(** Modelled from the spec: shallow merge into the first match. *)
Definition update_one (q : doc) (u : doc) : M nat :=
  let! h := gets heap in
  let! c := gets coll in
  let! o := lift (first_match h q c) in
  match o with
  | Some l =>
      match h !! l with
      | Some d => let! _ := modify (set_heap (<[l := merge d u]> h)) in ret 1%nat
      | None => ret 0%nat
      end
  | None => ret 0%nat
  end.

(** Modelled from the spec. *)
Definition delete_one (q : doc) : M nat :=
  let! h := gets heap in
  let! c := gets coll in
  let! o := lift (first_match h q c) in
  match o with
  | Some l => let! _ := modify (set_coll (remove_first l c)) in ret 1%nat
  | None => ret 0%nat
  end.

(** Modelled from the spec. *)
Definition delete_many (q : doc) : M nat :=
  let! h := gets heap in
  let! c := gets coll in
  let! ls := lift (select h q c) in
  let! _ := modify (set_coll (List.filter (fun l => negb (bool_decide (l ∈ ls))) c)) in
  ret (length ls).

(** The operations a caller can perform. *)
Inductive op : Type :=
  | OInsert (d : doc)
  | OInsertMany (ds : list doc)
  | OFind (q : doc) (p : option doc)
  | OFindOne (q : doc) (p : option doc)
  | OCount (q : doc)
  | OUpdateOne (q u : doc)
  | ODeleteOne (q : doc)
  | ODeleteMany (q : doc)
  | OSort (cid : nat) (f : string) (direction : Z)
  | OToList (cid : nat) (max_length : option Z).

Definition run_op (o : op) : M unit :=
  match o with
  | OInsert d => let! _ := insert d in ret tt
  | OInsertMany ds => let! _ := insert_many ds in ret tt
  | OFind q p => let! _ := find q p in ret tt
  | OFindOne q p => let! _ := find_one q p in ret tt
  | OCount q => let! _ := count_documents q in ret tt
  | OUpdateOne q u => let! _ := update_one q u in ret tt
  | ODeleteOne q => let! _ := delete_one q in ret tt
  | ODeleteMany q => let! _ := delete_many q in ret tt
  | OSort cid f dir => let! _ := cursor_sort cid f dir in ret tt
  | OToList cid n => let! _ := to_list cid n in ret tt
  end.

(** Operations that act on the collection rather than on a cursor. *)
Definition coll_op (o : op) : bool :=
  match o with OSort _ _ _ | OToList _ _ => false | _ => true end.

Fixpoint run_ops (os : list op) : M unit :=
  match os with
  | [] => ret tt
  | o :: os' => let! _ := run_op o in run_ops os'
  end.

Inductive reachable : db -> Prop :=
  | reach_init : reachable empty_db
  | reach_step (o : op) (st st' : db) :
      reachable st -> run_op o st = Ok (tt, st') -> reachable st'.
End store_ops.

(** The [$or] clause of the matcher, as a function of its value. *)
Definition or_value (d : doc) (v : value) : result bool :=
  match v with
  | VList cs =>
      (fix any_of (cs : list value) : result bool :=
         match cs with
         | [] => Ok false
         | c :: cs' =>
             match matches_v d c with
             | Ok true => Ok true
             | Ok false => any_of cs'
             | Err e => Err e
             end
         end) cs
  | VDoc [] => Ok false
  | VStr EmptyString => Ok false
  | _ => Err TypeError
  end.

(** The documents a cursor currently returns. *)
Definition cursor_docs (st : db) (cid : nat) : option (list doc) :=
  match cursors st !! cid with
  | Some data => Some (omap (fun l => heap st !! l) data)
  | None => None
  end.

(** A concrete identity generator, for the examples below. *)
Definition demo_uuid (n : nat) : string := String (ascii_of_nat (48 + n)) "-uuid".

(** The state reached by running [os] from the empty store. *)
Definition demo_state (os : list op) : db :=
  match run_ops demo_uuid os empty_db with Ok (_, st) => st | Err _ => empty_db end.

(** Three documents with pairwise distinct [n], then [find({})]. *)
Definition demo_distinct : list op :=
  [OInsert [("n", VNum 3)]; OInsert [("n", VNum 1)]; OInsert [("n", VNum 2)]; OFind [] None].

(** The state after one [cursor.sort]. *)
Definition after_sort (cid : nat) (f : string) (dir : Z) (st : db) : db :=
  match cursor_sort cid f dir st with Ok (_, st') => st' | Err _ => st end.

(** The two documents of the [update_one] example of the spec. *)
Definition alice : doc := [("name", VStr "Alice"); ("aadhaar_id", VStr "A1")].
Definition bob : doc := [("name", VStr "Bob"); ("aadhaar_id", VStr "A2")].
Definition demo_ab : list op := [OInsert alice; OInsert bob].
Definition carol : doc := [("name", VStr "Carol"); ("aadhaar_id", VStr "A3")].

(** The store invariant: the collection and the cursors only hold
    allocated objects, cursor identities are allocated, and no cursor
    holds an object of the collection. *)
Definition inv (st : db) : Prop :=
  (forall l, In l (coll st) -> (l < next_loc st)%nat) /\
  (forall c data, cursors st !! c = Some data ->
     (c < next_cur st)%nat /\ forall l, In l data -> (l < next_loc st)%nat /\ ~ In l (coll st)).

(** How a cursor's sequence may change in one step: it stays, or (when
    [b = false]) is reordered. *)
Definition cursor_rel (b : bool) (o' o : option (list nat)) : Prop :=
  match o', o with
  | None, None => True
  | Some data', Some data => Permutation data' data /\ (b = true -> data' = data)
  | _, _ => False
  end.

(** The footprint of a step from [st] to [st']: allocation only grows;
    the collection gains only new objects; objects outside the collection
    keep their contents; existing cursors keep (or, when [b = false],
    reorder) their sequence; new cursors hold new objects only. *)
Definition step_frame (b : bool) (st st' : db) : Prop :=
  (next_loc st <= next_loc st')%nat /\ (next_cur st <= next_cur st')%nat /\
  (forall l, In l (coll st') -> In l (coll st) \/ (next_loc st <= l < next_loc st')%nat) /\
  (forall l, (l < next_loc st)%nat -> ~ In l (coll st) -> heap st' !! l = heap st !! l) /\
  (forall c, (c < next_cur st)%nat -> cursor_rel b (cursors st' !! c) (cursors st !! c)) /\
  (forall c data, (next_cur st <= c)%nat -> cursors st' !! c = Some data ->
     (c < next_cur st')%nat /\
     forall l, In l data -> (next_loc st <= l < next_loc st')%nat /\ ~ In l (coll st')).

(* ------------------------------------------------------------------ *)
(** ** The [create_user] endpoint ([backend/server.py], lines 382-417)

    As shown in the notes:
<<
    try:
        existing = await db.users.find_one({"aadhaar_id": user.aadhaar_id}, {"_id": 0})
        if existing:
            raise HTTPException(status_code=400, detail="Aadhaar ID already registered")
        user_obj = RationUser( **user.model_dump())
        doc = user_obj.model_dump()
        doc['created_at'] = doc['created_at'].isoformat()
        await db.users.insert_one(doc)
        try:
            alerts = await fraud_engine.detect_fraud_rules(user_obj.id)
            for alert in alerts:
                fraud_alert = FraudAlert(...)
                await db.fraud_alerts.insert_one(fraud_doc)
        except Exception as e:
            print(f"[WARNING] Fraud detection error: {str(e)}")
        return user_obj
    except HTTPException:
        raise
    except Exception as e:
        raise HTTPException(status_code=500, detail=f"User creation error: {error_msg}")
>>
    An exception does not undo the writes made before it. *)

(** The two collections the endpoint writes to. *)
Record app_state : Type := mkApp { users : db; fraud_alerts : db }.

(** The endpoint's outcome: the created user, or the [HTTPException] it
    raises ([error_msg] is elided in the notes). *)
Inductive response : Type :=
  | Created (user_obj : doc)
  | HTTPException (status_code : Z) (detail : string).

(** Truthiness of a returned document ([if existing:]): an empty dict is
    falsy. *)
Definition doc_truthy (d : doc) : bool :=
  match d with [] => false | _ => true end.

Section create_user_endpoint.
Variable uuid : nat -> string.
(** [RationUser( **user.model_dump()).model_dump()]: the pydantic model,
    which fills in its defaults, is outside the notes. *)
Variable ration_user : doc -> doc.
(** [datetime.isoformat()]. *)
Variable isoformat : value -> value.
(** [fraud_engine.detect_fraud_rules(user_id)]: outside the notes; it
    reads the store and returns the alerts, or raises. *)
Variable detect_fraud_rules : app_state -> value -> result (list doc).
(** [FraudAlert(...)] and the [fraud_doc] stored for one alert: elided in
    the notes; constructing it may raise. *)
Variable fraud_doc : doc -> result doc.

(** [for alert in alerts: ... await db.fraud_alerts.insert_one(fraud_doc)];
    an exception ends the loop, the alerts stored so far stay. *)
Fixpoint store_alerts (alerts : list doc) (fa : db) : db :=
  match alerts with
  | [] => fa
  | a :: rest =>
      match fraud_doc a with
      | Err _ => fa
      | Ok fd =>
          match insert uuid fd fa with
          | Ok (_, fa') => store_alerts rest fa'
          | Err _ => fa
          end
      end
  end.

(** The inner [try]: every exception of fraud detection is caught. *)
Definition run_fraud_detection (user_obj : doc) (st : app_state) : app_state :=
  match lookup_field "id" user_obj with
  | None => st
  | Some id =>
      match detect_fraud_rules st id with
      | Err _ => st
      | Ok alerts => mkApp (users st) (store_alerts alerts (fraud_alerts st))
      end
  end.

Definition create_user (user : doc) (st : app_state) : response * app_state :=
  match lookup_field "aadhaar_id" user with
  | None => (HTTPException 500 "User creation error", st)
  | Some aadhaar_id =>
      match find_one [("aadhaar_id", aadhaar_id)] (Some [("_id", VNum 0)]) (users st) with
      | Err _ => (HTTPException 500 "User creation error", st)
      | Ok (existing, u1) =>
          let st1 := mkApp u1 (fraud_alerts st) in
          let found :=
            match existing with
            | Some l => match heap u1 !! l with Some d => doc_truthy d | None => false end
            | None => false
            end in
          if found then (HTTPException 400 "Aadhaar ID already registered", st1)
          else
            let user_obj := ration_user user in
            match lookup_field "created_at" user_obj with
            | None => (HTTPException 500 "User creation error", st1)
            | Some created_at =>
                let d := set_field "created_at" (isoformat created_at) user_obj in
                match insert uuid d u1 with
                | Err _ => (HTTPException 500 "User creation error", st1)
                | Ok (_, u2) =>
                    (Created user_obj, run_fraud_detection user_obj (mkApp u2 (fraud_alerts st)))
                end
            end
      end
  end.
End create_user_endpoint.

(** The string Aadhaar numbers of the stored documents, in storage order. *)
Definition aadhaar_ids (st : db) : list string :=
  omap (fun d => match lookup_field "aadhaar_id" d with
                 | Some (VStr s) => Some s
                 | _ => None
                 end) (coll_docs st).

(* ------------------------------------------------------------------ *)
(** ** CORS origins ([backend/server.py], lines 658-663)
<<
    # Before
    allow_origins=os.environ.get('CORS_ORIGINS', '*').split(',')
    # After
    allow_origins=["*"]
>> *)

(** [s.split(sep)] for a one-character separator: every occurrence
    separates two parts, so [""] splits into [[""]]. *)
Fixpoint split_on (sep : ascii) (s : string) : list string :=
  match s with
  | EmptyString => [EmptyString]
  | String c r =>
      let parts := split_on sep r in
      if Ascii.eqb c sep then EmptyString :: parts
      else
        match parts with
        | p :: ps => String c p :: ps
        | [] => [String c EmptyString]
        end
  end.

(** [sep.join(parts)]. *)
Fixpoint join_with (sep : ascii) (parts : list string) : string :=
  match parts with
  | [] => EmptyString
  | [p] => p
  | p :: ps => String.append p (String sep (join_with sep ps))
  end.

(** The origin list before and after the fix, for an environment
    [os.environ]. *)
Definition cors_origins_before (environ : gmap string string) : list string :=
  split_on "," (default "*"%string (environ !! "CORS_ORIGINS"%string)).

Definition cors_origins_after : list string := ["*"%string].

(** Examples for the endpoint: a new user as in the notes' test data,
    a user model adding [id], [status] and [created_at], and fraud
    detection that raises or reports one alert. *)
Definition test_user : doc :=
  [("aadhaar_id", VStr "123456789012"); ("name", VStr "Test User")].
Definition demo_ration_user (u : doc) : doc :=
  u ++ [("id", VStr "u1"); ("status", VStr "active"); ("created_at", VNum 7)].
Definition demo_isoformat (v : value) : value := VStr "2025-11-13T00:00:00".
Definition demo_detect_error (st : app_state) (user_id : value) : result (list doc) :=
  Err TypeError.
Definition demo_detect_alerts (st : app_state) (user_id : value) : result (list doc) :=
  Ok [[("rule", VStr "duplicate_card"); ("user_id", user_id)]].
Definition demo_fraud_doc (a : doc) : result doc := Ok (a ++ [("id", VStr "alert-1")]).
Definition demo_app : app_state := mkApp (demo_state demo_ab) empty_db.

(* ================================================================== *)
(** * Properties *)

(** ** Unfolding the matcher *)

Lemma matches_nil (d : doc) : matches d [] = Ok true.
Proof. reflexivity. Qed.

Lemma matches_cons (d : doc) (k : string) (v : value) (rest : doc) :
  matches d ((k, v) :: rest) =
  if String.eqb k "$or" then
    match or_value d v with
    | Ok true => matches d rest
    | Ok false => Ok false
    | Err e => Err e
    end
  else
    match match_field d k v with
    | Ok true => matches d rest
    | Ok false => Ok false
    | Err e => Err e
    end.
Proof. reflexivity. Qed.

Lemma or_value_nil (d : doc) : or_value d (VList []) = Ok false.
Proof. reflexivity. Qed.

Lemma or_value_cons (d : doc) (c : value) (cs : list value) :
  or_value d (VList (c :: cs)) =
  match matches_v d c with
  | Ok true => Ok true
  | Ok false => or_value d (VList cs)
  | Err e => Err e
  end.
Proof. reflexivity. Qed.

Lemma wf_query_nil : wf_query [] = true.
Proof. reflexivity. Qed.

Lemma wf_query_cons (k : string) (v : value) (rest : doc) :
  wf_query ((k, v) :: rest) =
  (if String.eqb k "$or" then
     match v with VList cs => forallb wf_v cs | _ => false end
   else
     match v with VDoc ops => forallb (fun kv => known_op (fst kv)) ops | _ => true end)
  && wf_query rest.
Proof.
  unfold wf_query. cbn [wf_v].
  destruct (String.eqb k "$or"); [|reflexivity].
  destruct v; reflexivity.
Qed.

Lemma has_unknown_op_cons (k : string) (v : value) (rest : doc) :
  has_unknown_op ((k, v) :: rest) =
  (if String.eqb k "$or" then
     match v with VList cs => existsb has_unknown_op_v cs | _ => false end
   else
     match v with VDoc ops => negb (forallb (fun kv => known_op (fst kv)) ops) | _ => false end)
  || has_unknown_op rest.
Proof.
  unfold has_unknown_op. cbn [has_unknown_op_v].
  destruct (String.eqb k "$or"); [|reflexivity].
  destruct v; reflexivity.
Qed.

(** ** Operators *)

Lemma eval_op_known (fv : option value) (op : string) (arg : value) :
  known_op op = true -> exists b, eval_op fv op arg = Ok b.
Proof.
  intros H. unfold eval_op.
  unfold known_op, known_ops in H; cbn [existsb] in H.
  destruct (String.eqb op "$eq"); [eauto|].
  destruct (String.eqb op "$ne"); [eauto|].
  destruct (String.eqb op "$gt"); [eauto|].
  destruct (String.eqb op "$gte"); [eauto|].
  destruct (String.eqb op "$lt"); [eauto|].
  destruct (String.eqb op "$lte"); [eauto|].
  destruct (String.eqb op "$in"); [eauto|].
  destruct (String.eqb op "$regex"); [eauto|].
  discriminate.
Qed.

Lemma eval_op_err (fv : option value) (op : string) (arg : value) (e : error) :
  eval_op fv op arg = Err e -> e = MalformedQuery op /\ known_op op = false.
Proof.
  unfold eval_op, known_op, known_ops. cbn [existsb].
  destruct (String.eqb op "$eq"); [discriminate|].
  destruct (String.eqb op "$ne"); [discriminate|].
  destruct (String.eqb op "$gt"); [discriminate|].
  destruct (String.eqb op "$gte"); [discriminate|].
  destruct (String.eqb op "$lt"); [discriminate|].
  destruct (String.eqb op "$lte"); [discriminate|].
  destruct (String.eqb op "$in"); [discriminate|].
  destruct (String.eqb op "$regex"); [discriminate|].
  intros [= <-]. split; reflexivity.
Qed.

Lemma eval_ops_known (fv : option value) (ops : list (string * value)) :
  forallb (fun kv => known_op (fst kv)) ops = true -> exists b, eval_ops fv ops = Ok b.
Proof.
  induction ops as [|[op arg] ops IH]; cbn; [eauto|].
  intros [Hk Hr]%andb_prop.
  destruct (eval_op_known fv op arg Hk) as [[|] ->]; eauto.
Qed.

Lemma eval_ops_err (fv : option value) (ops : list (string * value)) (op : string) :
  eval_ops fv ops = Err (MalformedQuery op) -> known_op op = false.
Proof.
  induction ops as [|[op' arg] ops IH]; cbn; [discriminate|].
  destruct (eval_op fv op' arg) as [[|]|e] eqn:E; auto; [discriminate|].
  intros [= ->]. apply eval_op_err in E as [[= ->] H]. exact H.
Qed.

Lemma match_field_known (d : doc) (k : string) (v : value) :
  match v with VDoc ops => forallb (fun kv => known_op (fst kv)) ops | _ => true end = true ->
  exists b, match_field d k v = Ok b.
Proof.
  destruct v; cbn; eauto using eval_ops_known.
Qed.

Lemma match_field_err (d : doc) (k : string) (v : value) (op : string) :
  match_field d k v = Err (MalformedQuery op) -> known_op op = false.
Proof.
  destruct v; cbn; try discriminate. apply eval_ops_err.
Qed.

(** ** Well-formed queries are decided; errors come from malformed ones *)

Lemma wf_decides_both (qv : value) :
  forall d : doc,
    (wf_v qv = true -> exists b, matches_v d qv = Ok b) /\
    (forall cs, qv = VList cs -> forallb wf_v cs = true -> exists b, or_value d qv = Ok b).
Proof.
  induction qv as [s|z|b|
                   |fs IHfs
                   |vs IHvs] using value_ind'; intros d.
  1-4: split; [discriminate|intros ? [=]].
  - split; [|intros ? [=]].
    change (wf_query fs = true -> exists b, matches d fs = Ok b).
    induction IHfs as [|[k v] fs' Hv Hfs IH]; [intros _; exists true; reflexivity|].
    rewrite wf_query_cons, matches_cons. cbn [snd] in Hv.
    destruct (String.eqb k "$or").
    + destruct v as [| | | | |cs]; try discriminate.
      intros [Hcs Hr]%andb_prop.
      destruct ((proj2 (Hv d)) cs eq_refl Hcs) as [[|] ->]; [apply IH, Hr|eauto].
    + intros [Hk Hr]%andb_prop.
      destruct (match_field_known d k v Hk) as [[|] ->]; [apply IH, Hr|eauto].
  - split; [discriminate|]. intros cs [= <-] Hcs.
    induction IHvs as [|c vs' Hc Hvs IH]; [exists false; reflexivity|].
    cbn [forallb] in Hcs. apply andb_prop in Hcs as [Hc1 Hr].
    rewrite or_value_cons.
    destruct ((proj1 (Hc d)) Hc1) as [[|] ->]; [eauto|apply IH, Hr].
Qed.

Lemma wf_decides (d q : doc) : wf_query q = true -> exists b, matches d q = Ok b.
Proof. apply (proj1 (wf_decides_both (VDoc q) d)). Qed.

Lemma wf_matches (d q : doc) : wf_query q = true -> matches d q = Ok (matchb d q).
Proof.
  intros H. destruct (wf_decides d q H) as [b Hb]. unfold matchb. rewrite Hb. reflexivity.
Qed.

Lemma malformed_both (qv : value) :
  forall (d : doc) (op : string),
    (matches_v d qv = Err (MalformedQuery op) -> known_op op = false) /\
    (or_value d qv = Err (MalformedQuery op) -> known_op op = false).
Proof.
  induction qv as [s|z|b|
                   |fs IHfs
                   |vs IHvs] using value_ind'; intros d op.
  1: split; [discriminate|destruct s; discriminate].
  1-3: split; discriminate.
  - split; [|destruct fs; discriminate].
    change (matches d fs = Err (MalformedQuery op) -> known_op op = false).
    induction IHfs as [|[k v] fs' Hv Hfs IH]; [discriminate|].
    rewrite matches_cons. cbn [snd] in Hv.
    destruct (String.eqb k "$or").
    + destruct (or_value d v) as [[|]|e] eqn:E; [exact IH|discriminate|].
      intros [= ->]. exact (proj2 (Hv d op) E).
    + destruct (match_field d k v) as [[|]|e] eqn:E; [exact IH|discriminate|].
      intros [= ->]. exact (match_field_err d k v op E).
  - split; [discriminate|].
    induction IHvs as [|c vs' Hc Hvs IH]; [discriminate|].
    rewrite or_value_cons.
    destruct (matches_v d c) as [[|]|e] eqn:E; [discriminate|exact IH|].
    intros [= ->]. exact (proj1 (Hc d op) E).
Qed.

Lemma or_value_true (d : doc) (cs : list value) :
  Forall (fun c => exists b, matches_v d c = Ok b) cs ->
  (or_value d (VList cs) = Ok true <-> exists c, In c cs /\ matches_v d c = Ok true).
Proof.
  induction 1 as [|c cs [b Hb] Hcs IH].
  - split; [discriminate|intros (? & [] & _)].
  - rewrite or_value_cons, Hb. destruct b.
    + split; [intros _; exists c; split; [left; reflexivity|exact Hb]|reflexivity].
    + rewrite IH. split.
      * intros (c' & Hin & Hm). exists c'. split; [right; exact Hin|exact Hm].
      * intros (c' & [<-|Hin] & Hm); [congruence|]. exists c'. split; assumption.
Qed.

(** ** Allocation and the read operations *)

Fixpoint alloc_heap (h : gmap nat doc) (n : nat) (ds : list doc) : gmap nat doc :=
  match ds with
  | [] => h
  | d :: ds' => alloc_heap (<[n := d]> h) (S n) ds'
  end.

Lemma alloc_heap_outside (h : gmap nat doc) (n : nat) (ds : list doc) (l : nat) :
  (l < n \/ n + length ds <= l)%nat -> alloc_heap h n ds !! l = h !! l.
Proof.
  revert h n. induction ds as [|d ds IH]; intros h n Hl; cbn; [reflexivity|].
  cbn in Hl. rewrite IH by lia. apply lookup_insert_ne. lia.
Qed.

Lemma alloc_heap_read (h : gmap nat doc) (n : nat) (ds : list doc) :
  omap (fun l => alloc_heap h n ds !! l) (seq n (length ds)) = ds.
Proof.
  revert h n. induction ds as [|d ds IH]; intros h n; cbn; [reflexivity|].
  rewrite alloc_heap_outside by lia. rewrite lookup_insert_eq. f_equal. apply IH.
Qed.

Lemma alloc_all_spec (ds : list doc) (st : db) :
  alloc_all ds st =
  Ok (seq (next_loc st) (length ds),
      mkDB (alloc_heap (heap st) (next_loc st) ds) (next_loc st + length ds)
           (coll st) (cursors st) (next_cur st) (uuid_ctr st)).
Proof.
  revert st. induction ds as [|d ds IH]; intros st.
  - cbn. rewrite Nat.add_0_r. destruct st; reflexivity.
  - cbn [alloc_all]. unfold bind at 1. cbn [alloc]. unfold bind. rewrite IH. cbn.
    rewrite Nat.add_succ_r. reflexivity.
Qed.

Lemma find_eq (q : doc) (p : option doc) (st : db) :
  find q p st =
  match select (heap st) q (coll st) with
  | Err e => Err e
  | Ok ls =>
      let ds := map (project p) (omap (fun l => heap st !! l) ls) in
      Ok (next_cur st,
          mkDB (alloc_heap (heap st) (next_loc st) ds) (next_loc st + length ds) (coll st)
               (<[next_cur st := seq (next_loc st) (length ds)]> (cursors st))
               (S (next_cur st)) (uuid_ctr st))
  end.
Proof.
  unfold find, bind, gets, lift. destruct (select (heap st) q (coll st)); [|reflexivity].
  rewrite alloc_all_spec. reflexivity.
Qed.

Lemma find_cursor_docs (q : doc) (p : option doc) (st st' : db) (cid : nat) (ls : list nat) :
  select (heap st) q (coll st) = Ok ls ->
  find q p st = Ok (cid, st') ->
  cid = next_cur st /\
  cursor_docs st' cid = Some (map (project p) (omap (fun l => heap st !! l) ls)).
Proof.
  intros Hs Hf. rewrite find_eq, Hs in Hf. injection Hf as <- <-.
  split; [reflexivity|]. unfold cursor_docs. cbn.
  rewrite lookup_insert_eq. f_equal. apply alloc_heap_read.
Qed.

Lemma select_filter (h : gmap nat doc) (q : doc) (ls : list nat) :
  wf_query q = true ->
  select h q ls =
  Ok (List.filter (fun l => match h !! l with Some d => matchb d q | None => false end) ls).
Proof.
  intros Hq. induction ls as [|l ls IH]; [reflexivity|]. cbn [select List.filter].
  destruct (h !! l) as [d|]; [|exact IH].
  rewrite (wf_matches d q Hq), IH. destruct (matchb d q); reflexivity.
Qed.

Lemma omap_filter (h : gmap nat doc) (P : doc -> bool) (ls : list nat) :
  omap (fun l => h !! l) (List.filter (fun l => match h !! l with Some d => P d | None => false end) ls) =
  List.filter P (omap (fun l => h !! l) ls).
Proof.
  induction ls as [|l ls IH]; [reflexivity|]. cbn.
  destruct (h !! l) as [d|] eqn:E; cbn; [|exact IH].
  destruct (P d); cbn; rewrite ?E, IH; reflexivity.
Qed.

Lemma project_none (ds : list doc) : map (project None) ds = ds.
Proof. induction ds as [|d ds IH]; cbn; [reflexivity|]. rewrite IH. reflexivity. Qed.

Lemma select_all_false (h : gmap nat doc) (q : doc) (ls : list nat) :
  (forall d, matches d q = Ok false) -> select h q ls = Ok [].
Proof.
  intros Hf. induction ls as [|l ls IH]; [reflexivity|]. cbn [select].
  destruct (h !! l) as [d|]; [|exact IH]. rewrite Hf, IH. reflexivity.
Qed.

Lemma select_all_true (h : gmap nat doc) (q : doc) (ls : list nat) :
  (forall d, matches d q = Ok true) ->
  select h q ls = Ok (List.filter (fun l => match h !! l with Some _ => true | None => false end) ls).
Proof.
  intros Ht. induction ls as [|l ls IH]; [reflexivity|]. cbn [select List.filter].
  destruct (h !! l) as [d|]; [|exact IH]. rewrite Ht, IH. reflexivity.
Qed.

Lemma length_omap_filter_some (h : gmap nat doc) (ls : list nat) :
  length (List.filter (fun l => match h !! l with Some _ => true | None => false end) ls) =
  length (omap (fun l => h !! l) ls).
Proof.
  induction ls as [|l ls IH]; [reflexivity|]. cbn.
  destruct (h !! l); cbn; rewrite IH; reflexivity.
Qed.

Lemma count_documents_eq (q : doc) (st : db) :
  count_documents q st =
  match select (heap st) q (coll st) with
  | Err e => Err e
  | Ok ls => Ok (length ls, st)
  end.
Proof. unfold count_documents, bind, gets, lift, ret. destruct (select (heap st) q (coll st)); reflexivity. Qed.

Lemma forallb_decided (d : doc) (cs : list value) :
  forallb wf_v cs = true -> Forall (fun c => exists b, matches_v d c = Ok b) cs.
Proof.
  induction cs as [|c cs IH]; cbn; [constructor|].
  intros [Hc Hr]%andb_prop. constructor; [exact (proj1 (wf_decides_both c d) Hc)|exact (IH Hr)].
Qed.

Lemma wf_or2 (q1 q2 : doc) :
  wf_query q1 = true -> wf_query q2 = true ->
  wf_query [("$or"%string, VList [VDoc q1; VDoc q2])] = true.
Proof.
  intros H1 H2. rewrite wf_query_cons. cbn [String.eqb Ascii.eqb Bool.eqb forallb].
  change (wf_v (VDoc q1)) with (wf_query q1). change (wf_v (VDoc q2)) with (wf_query q2).
  rewrite H1, H2. reflexivity.
Qed.

Lemma matchb_or2 (d q1 q2 : doc) :
  wf_query q1 = true -> wf_query q2 = true ->
  matchb d [("$or"%string, VList [VDoc q1; VDoc q2])] = matchb d q1 || matchb d q2.
Proof.
  intros H1 H2. unfold matchb at 1. rewrite matches_cons.
  cbn [String.eqb Ascii.eqb Bool.eqb].
  rewrite !or_value_cons.
  change (matches_v d (VDoc q1)) with (matches d q1).
  change (matches_v d (VDoc q2)) with (matches d q2).
  rewrite (wf_matches d q1 H1), (wf_matches d q2 H2).
  destruct (matchb d q1), (matchb d q2); reflexivity.
Qed.

(** C2: a top-level [$or] clause holds when one of its nested
    specifications holds, conjunctively with the ordinary keys of the
    same query; [find] with a two-clause [$or] returns, in storage order,
    each stored document that matches either clause, once. *)
Theorem or_clause_conjunction :
  (forall d q : doc, wf_query q = true ->
     (matches d q = Ok true <->
        (forall k v, In (k, v) q -> k <> "$or"%string -> match_field d k v = Ok true) /\
        (forall v, In ("$or"%string, v) q ->
           exists cs c, v = VList cs /\ In c cs /\ matches_v d c = Ok true))) /\
  (forall (q1 q2 : doc) (st : db), wf_query q1 = true -> wf_query q2 = true ->
     exists st', find [("$or"%string, VList [VDoc q1; VDoc q2])] None st = Ok (next_cur st, st') /\
       cursor_docs st' (next_cur st) =
         Some (List.filter (fun d => matchb d q1 || matchb d q2) (coll_docs st))).
Proof.
  split.
  - intros d q. induction q as [|[k v] rest IH]; intros Hwf.
    + rewrite matches_nil. split; [intros _; split; [intros ? ? []|intros ? []]|reflexivity].
    + rewrite wf_query_cons in Hwf. apply andb_prop in Hwf as [Hk Hr].
      specialize (IH Hr). rewrite matches_cons.
      destruct (String.eqb k "$or") eqn:Ek.
      * apply String.eqb_eq in Ek. subst k.
        destruct v as [| | | | |cs]; try discriminate.
        pose proof (or_value_true d cs (forallb_decided d cs Hk)) as Hor.
        destruct (proj2 (wf_decides_both (VList cs) d) cs eq_refl Hk) as [[|] Hb];
          rewrite Hb.
        -- rewrite IH. split.
           ++ intros [Hf Ho]. split.
              ** intros k v [[= <- <-]|Hin] Hne; [congruence|]. exact (Hf k v Hin Hne).
              ** intros v [[= <-]|Hin]; [|exact (Ho v Hin)].
                 destruct (proj1 Hor Hb) as (c & Hc & Hm). exists cs, c. auto.
           ++ intros [Hf Ho]. split.
              ** intros k v Hin Hne. apply Hf; [right; exact Hin|exact Hne].
              ** intros v Hin. apply Ho. right. exact Hin.
        -- split; [discriminate|]. intros [_ Ho].
           destruct (Ho (VList cs) (or_introl eq_refl)) as (cs' & c & [= <-] & Hc & Hm).
           assert (or_value d (VList cs) = Ok true) by (apply Hor; eauto). congruence.
      * apply String.eqb_neq in Ek.
        destruct (match_field_known d k v Hk) as [[|] Hb]; rewrite Hb.
        -- rewrite IH. split.
           ++ intros [Hf Ho]. split.
              ** intros k' v' [[= <- <-]|Hin] Hne; [exact Hb|exact (Hf k' v' Hin Hne)].
              ** intros v' [[= Hkk _]|Hin]; [congruence|exact (Ho v' Hin)].
           ++ intros [Hf Ho]. split.
              ** intros k' v' Hin Hne. apply Hf; [right; exact Hin|exact Hne].
              ** intros v' Hin. apply Ho. right. exact Hin.
        -- split; [discriminate|]. intros [Hf _].
           rewrite (Hf k v (or_introl eq_refl) Ek) in Hb. discriminate.
  - intros q1 q2 st H1 H2.
    pose proof (select_filter (heap st) _ (coll st) (wf_or2 q1 q2 H1 H2)) as Hs.
    destruct (find [("$or"%string, VList [VDoc q1; VDoc q2])] None st) as [[cid st']|e] eqn:Hf.
    + destruct (find_cursor_docs _ None st st' cid _ Hs Hf) as [-> Hc].
      exists st'. split; [reflexivity|]. rewrite Hc, project_none, omap_filter.
      f_equal. apply List.filter_ext. intros d. apply matchb_or2; assumption.
    + rewrite find_eq, Hs in Hf. discriminate.
Qed.

(** C2: the theorem at the Alice/Bob store, for
    [{$or: [{name: "Alice"}, {aadhaar_id: "A2"}]}]. *)
Lemma or_clause_conjunction_witness :
  exists st',
    find [("$or"%string, VList [VDoc [("name", VStr "Alice")]; VDoc [("aadhaar_id", VStr "A2")]])]
         None (demo_state demo_ab) = Ok (next_cur (demo_state demo_ab), st') /\
    cursor_docs st' (next_cur (demo_state demo_ab)) =
      Some (List.filter (fun d => matchb d [("name", VStr "Alice")] || matchb d [("aadhaar_id", VStr "A2")])
                        (coll_docs (demo_state demo_ab))).
Proof.
  apply (proj2 or_clause_conjunction); vm_compute; reflexivity.
Defined.

(** C10: a [$or] over no clauses matches no document ([any([])] is
    false), so [find] yields an empty cursor and [count_documents] 0,
    whereas the empty query matches every document. *)
Theorem empty_or_matches_nothing :
  forall (st : db) (d : doc),
    matches d [("$or"%string, VList [])] = Ok false /\
    matches d [] = Ok true /\
    count_documents [("$or"%string, VList [])] st = Ok (0%nat, st) /\
    count_documents [] st = Ok (length (coll_docs st), st) /\
    (forall p, exists st',
        find [("$or"%string, VList [])] p st = Ok (next_cur st, st') /\
        cursor_docs st' (next_cur st) = Some []).
Proof.
  intros st d.
  assert (Hf : forall d', matches d' [("$or"%string, VList [])] = Ok false) by reflexivity.
  split; [apply Hf|]. split; [reflexivity|]. split.
  { rewrite count_documents_eq, (select_all_false _ _ _ Hf). reflexivity. }
  split.
  { rewrite count_documents_eq, select_all_true by reflexivity.
    rewrite length_omap_filter_some. reflexivity. }
  intros p. rewrite find_eq, (select_all_false _ _ _ Hf). cbn.
  eexists. split; [reflexivity|].
  unfold cursor_docs. cbn. rewrite lookup_insert_eq. reflexivity.
Qed.

Lemma select_err_first (h : gmap nat doc) (q : doc) (l : nat) (ls : list nat) (d : doc) (e : error) :
  h !! l = Some d -> matches d q = Err e ->
  select h q (l :: ls) = Err e /\ first_match h q (l :: ls) = Err e.
Proof. intros Hl Hm. cbn [select first_match]. rewrite Hl, Hm. split; reflexivity. Qed.

(** C3: the matcher decides every well-formed query; a
    [MalformedQuery] error names an unrecognized operator; recognized
    operators never raise and an ordering comparison across incompatible
    types, or against an absent field, is a non-match; an error raised
    while scanning the collection reaches the caller of every operation. *)
Theorem matcher_failures :
  (forall d q : doc, wf_query q = true -> exists b, matches d q = Ok b) /\
  (forall (d q : doc) (op : string),
      matches d q = Err (MalformedQuery op) -> known_op op = false) /\
  (forall fv op arg, known_op op = true -> exists b, eval_op fv op arg = Ok b) /\
  (forall x arg op, In op ["$gt"; "$gte"; "$lt"; "$lte"]%string ->
      comparable x arg = false ->
      eval_op (Some x) op arg = Ok false /\ eval_op None op arg = Ok false) /\
  (forall (h : gmap nat doc) q l ls d e, h !! l = Some d -> matches d q = Err e ->
      select h q (l :: ls) = Err e /\ first_match h q (l :: ls) = Err e) /\
  (forall st q p e, select (heap st) q (coll st) = Err e ->
      find q p st = Err e /\ count_documents q st = Err e /\ delete_many q st = Err e) /\
  (forall st q p u e, first_match (heap st) q (coll st) = Err e ->
      find_one q p st = Err e /\ update_one q u st = Err e /\ delete_one q st = Err e).
Proof.
  split; [exact wf_decides|].
  split; [intros d q op; exact (proj1 (malformed_both (VDoc q) d op))|].
  split; [exact eval_op_known|].
  split.
  { intros x arg op Hop Hc.
    destruct Hop as [<-|[<-|[<-|[<-|[]]]]];
      (split; [destruct x, arg; try discriminate; reflexivity|reflexivity]). }
  split; [exact select_err_first|].
  split.
  - intros st q p e Hs.
    unfold find, count_documents, delete_many, bind, gets, lift. rewrite Hs.
    split; [|split]; reflexivity.
  - intros st q p u e Hs.
    unfold find_one, update_one, delete_one, bind, gets, lift. rewrite Hs.
    split; [|split]; reflexivity.
Qed.

(** C3: the theorem at a well-formed equality query. *)
Lemma matcher_failures_witness : exists b, matches alice [("name", VStr "Alice")] = Ok b.
Proof.
  apply (proj1 matcher_failures). vm_compute. reflexivity.
Defined.

(** ** Case folding and pattern search *)

Lemma lower_upper_ascii (c : ascii) : lower_ascii (upper_ascii c) = lower_ascii c.
Proof. destruct c as [[] [] [] [] [] [] [] []]; reflexivity. Qed.

Lemma lower_upper (s : string) : lower (upper s) = lower s.
Proof. induction s as [|c s IH]; cbn; [reflexivity|]. rewrite lower_upper_ascii, IH. reflexivity. Qed.

Lemma scan_spec (re t : string) :
  scan re t = true <-> exists pre suf, t = (pre ++ suf)%string /\ match_here re suf = true.
Proof.
  induction t as [|c t IH]; cbn [scan].
  - rewrite orb_false_r. split.
    + intros H. exists EmptyString, EmptyString. split; [reflexivity|exact H].
    + intros ([|c pre] & suf & Ht & Hm).
      * change (EmptyString = suf) in Ht. subst suf. exact Hm.
      * change (EmptyString = String c (pre ++ suf)%string) in Ht. discriminate Ht.
  - rewrite orb_true_iff, IH. split.
    + intros [H|(pre & suf & -> & Hm)].
      * exists EmptyString, (String c t). split; [reflexivity|exact H].
      * exists (String c pre), suf. split; [reflexivity|exact Hm].
    + intros ([|c' pre] & suf & Ht & Hm).
      * change (String c t = suf) in Ht. subst suf. left. exact Hm.
      * change (String c t = String c' (pre ++ suf)%string) in Ht.
        injection Ht as <- ->. right. exists pre, suf. auto.
Qed.

(** C7: [$regex] holds exactly when the field is a string containing a
    match of the pattern, both folded to lower case; it never raises, is
    a non-match on an absent or non-string field, and is insensitive to
    the case of subject and pattern ("Alice" matches "alice"). *)
Theorem regex_case_insensitive :
  (forall (d : doc) (k p : string),
     match_field d k (VDoc [("$regex"%string, VStr p)]) =
     Ok (match lookup_field k d with Some (VStr s) => regex_icase p s | _ => false end)) /\
  (forall p s : string,
     (forall r, lower p <> String "^" r) ->
     (regex_icase p s = true <->
      exists pre suf, lower s = (pre ++ suf)%string /\ match_here (lower p) suf = true)) /\
  (forall p s : string,
     regex_icase p (upper s) = regex_icase p s /\ regex_icase (upper p) s = regex_icase p s) /\
  matches [("name"%string, VStr "Alice")] [("name"%string, VDoc [("$regex"%string, VStr "alice")])] = Ok true.
Proof.
  split; [|split; [|split]].
  - intros d k p. cbn [match_field eval_ops]. unfold eval_op. cbn [String.eqb Ascii.eqb Bool.eqb].
    destruct (lookup_field k d) as [[]|]; try reflexivity.
    destruct (regex_icase p s); reflexivity.
  - intros p s Hp. unfold regex_icase, regex_search.
    destruct (lower p) as [|c r] eqn:Ep.
    + split; [intros _; exists EmptyString, (lower s); split; reflexivity|reflexivity].
    + destruct (Ascii.eqb_spec c "^") as [->|Hc]; [exfalso; exact (Hp r eq_refl)|].
      apply scan_spec.
  - intros p s. unfold regex_icase. rewrite !lower_upper. split; reflexivity.
  - reflexivity.
Qed.

(** C7: the theorem at pattern "alice" and subject "Alice". *)
Lemma regex_case_insensitive_witness :
  regex_icase "alice" "Alice" = true <->
  exists pre suf, lower "Alice" = (pre ++ suf)%string /\ match_here (lower "alice") suf = true.
Proof.
  apply (proj1 (proj2 regex_case_insensitive)).
  intros r H. vm_compute in H. discriminate H.
Defined.

(** ** Sorting *)

Section sorting_props.
Context {A : Type}.

Lemma insert_by_perm (lt : A -> A -> bool) (x : A) (l : list A) :
  Permutation (insert_by lt x l) (x :: l).
Proof.
  induction l as [|y ys IH]; cbn; [reflexivity|].
  destruct (lt y x); [|reflexivity].
  etransitivity; [apply perm_skip, IH|apply perm_swap].
Qed.

Lemma sort_by_perm (lt : A -> A -> bool) (l : list A) : Permutation (sort_by lt l) l.
Proof.
  induction l as [|x xs IH]; cbn; [reflexivity|].
  etransitivity; [apply insert_by_perm|apply perm_skip, IH].
Qed.

(** No neighbour pair is strictly inverted, when [lt] is asymmetric. *)
Lemma insert_by_sorted (lt : A -> A -> bool) (x : A) (l : list A) :
  (forall a b, lt a b = true -> lt b a = false) ->
  Sorted (fun a b => lt b a = false) l ->
  Sorted (fun a b => lt b a = false) (insert_by lt x l).
Proof.
  intros Hasym. induction 1 as [|y ys Hs IH Hhd]; cbn.
  - constructor; constructor.
  - destruct (lt y x) eqn:Eyx.
    + constructor; [exact IH|].
      destruct ys as [|z zs]; cbn.
      * constructor. apply Hasym, Eyx.
      * destruct (lt z x); constructor; [inversion Hhd; assumption|apply Hasym, Eyx].
    + constructor; [constructor; assumption|constructor; exact Eyx].
Qed.

Lemma sort_by_sorted (lt : A -> A -> bool) (l : list A) :
  (forall a b, lt a b = true -> lt b a = false) ->
  Sorted (fun a b => lt b a = false) (sort_by lt l).
Proof.
  intros Hasym. induction l as [|x xs IH]; cbn; [constructor|].
  apply insert_by_sorted; assumption.
Qed.

Lemma insert_by_skip (lt : A -> A -> bool) (x : A) (m s : list A) :
  (forall y, In y m -> lt y x = true) -> insert_by lt x (m ++ s) = m ++ insert_by lt x s.
Proof.
  induction m as [|y m IH]; intros H; cbn; [reflexivity|].
  rewrite (H y (or_introl eq_refl)). f_equal. apply IH. intros z Hz. apply H. right. exact Hz.
Qed.

End sorting_props.

Lemma key_lt_asym (a b : option value) : key_lt a b = true -> key_lt b a = false.
Proof.
  destruct a as [x|], b as [y|]; cbn; try easy.
  destruct x, y; cbn; try easy.
  - unfold String.ltb. rewrite (String.compare_antisym s0 s).
    destruct (String.compare s s0); easy.
  - intros H. apply Z.ltb_lt in H. apply Z.ltb_ge. lia.
Qed.

(** [key_lt] on two present values is the [$lt] test, and the converse
    [$gt] test. *)
Lemma key_lt_rule (x y : value) :
  (key_lt (Some x) (Some y) = true <-> eval_op (Some x) "$lt" y = Ok true) /\
  (key_lt (Some x) (Some y) = true <-> eval_op (Some y) "$gt" x = Ok true).
Proof.
  cbn. split; split; [intros ->|intros [= ->]|intros ->|intros [= ->]]; reflexivity.
Qed.

Lemma insert_asc_missing {A} (key : A -> option value) (x : A) (l : list A) :
  key x = None -> insert_by (fun a b => key_lt (key a) (key b)) x l = x :: l.
Proof.
  intros E. destruct l as [|y l]; cbn; [reflexivity|].
  rewrite E. destruct (key y); reflexivity.
Qed.

Lemma sort_asc_missing {A} (key : A -> option value) (l : list A) :
  sort_asc key l =
  List.filter (key_missing key) l ++ sort_asc key (List.filter (fun x => negb (key_missing key x)) l).
Proof.
  unfold sort_asc. induction l as [|x xs IH]; [reflexivity|].
  cbn [sort_by List.filter]. rewrite IH.
  destruct (key x) eqn:E.
  - replace (key_missing key x) with false by (unfold key_missing; rewrite E; reflexivity).
    cbn [negb sort_by]. apply insert_by_skip.
    intros y Hy. apply filter_In in Hy as [_ Hy]. unfold key_missing in Hy.
    rewrite E. destruct (key y); [discriminate|reflexivity].
  - replace (key_missing key x) with true by (unfold key_missing; rewrite E; reflexivity).
    cbn [negb]. rewrite insert_asc_missing by exact E. reflexivity.
Qed.

Lemma sort_desc_perm {A} (key : A -> option value) (l : list A) :
  Permutation (sort_desc key l) l.
Proof.
  unfold sort_desc. etransitivity; [symmetry; apply Permutation_rev|apply sort_by_perm].
Qed.

Lemma sort_desc_missing {A} (key : A -> option value) (l : list A) :
  sort_desc key l =
  sort_desc key (List.filter (fun x => negb (key_missing key x)) l) ++
  rev (List.filter (key_missing key) l).
Proof. unfold sort_desc. rewrite sort_asc_missing, rev_app_distr. reflexivity. Qed.

Lemma sorted_snoc {A} (R : A -> A -> Prop) (m : list A) (a : A) :
  Sorted R m -> (forall m' z, m = m' ++ [z] -> R z a) -> Sorted R (m ++ [a]).
Proof.
  induction 1 as [|x m1 Hs IH Hhd]; intros Hl; cbn.
  - constructor; constructor.
  - constructor.
    + apply IH. intros m' z E. apply (Hl (x :: m') z). rewrite E. reflexivity.
    + destruct m1 as [|y m2]; cbn.
      * constructor. apply (Hl [] x). reflexivity.
      * constructor. inversion Hhd. assumption.
Qed.

Lemma sorted_rev {A} (R : A -> A -> Prop) (l : list A) :
  Sorted R l -> Sorted (fun a b => R b a) (rev l).
Proof.
  induction 1 as [|x l Hs IH Hhd]; cbn; [constructor|].
  apply sorted_snoc; [exact IH|]. intros m' z E.
  destruct l as [|y l]; cbn in E.
  - destruct m'; [|destruct m'; discriminate]. discriminate.
  - assert (Hz : z = y).
    { assert (E' : rev (rev (y :: l)) = rev (m' ++ [z])) by (cbn; rewrite E; reflexivity).
      rewrite rev_involutive, rev_app_distr in E'. injection E' as ->. reflexivity. }
    subst z. inversion Hhd. assumption.
Qed.

(** A stable insertion sort leaves a sorted sequence as it is. *)
Lemma sort_by_sorted_id {A} (lt : A -> A -> bool) (l : list A) :
  Sorted (fun a b => lt b a = false) l -> sort_by lt l = l.
Proof.
  induction 1 as [|x l Hs IH Hhd]; cbn; [reflexivity|]. rewrite IH.
  destruct Hhd as [|y l' Hxy]; cbn; [reflexivity|]. rewrite Hxy. reflexivity.
Qed.

(** Ascending then descending is the exact reverse of the ascending
    order. *)
Lemma sort_desc_asc_rev {A} (key : A -> option value) (l : list A) :
  sort_desc key (sort_asc key l) = rev (sort_asc key l).
Proof.
  unfold sort_desc. f_equal. apply sort_by_sorted_id.
  apply sort_by_sorted. intros a b. apply key_lt_asym.
Qed.

Lemma run_ops_reachable (uuid : nat -> string) (os : list op) (st st' : db) :
  reachable uuid st -> run_ops uuid os st = Ok (tt, st') -> reachable uuid st'.
Proof.
  revert st. induction os as [|o os IH]; intros st Hr H; cbn in H.
  - injection H as <-. exact Hr.
  - unfold bind in H. destruct (run_op uuid o st) as [[[] st1]|e] eqn:E; [|discriminate].
    apply (IH st1); [|exact H]. exact (reach_step uuid o st st1 Hr E).
Qed.

Lemma cursor_sort_some (st : db) (cid : nat) (f : string) (dir : Z) (data : list nat) :
  cursors st !! cid = Some data ->
  cursor_sort cid f dir st =
  Ok (cid, set_cursors (<[cid := if Z.eqb dir (-1) then sort_desc (field_key (heap st) f) data
                                 else sort_asc (field_key (heap st) f) data]> (cursors st)) st).
Proof. intros E. unfold cursor_sort. rewrite E. reflexivity. Qed.

(** C9.  [cursor.sort(field, direction)] returns the same cursor,
    changes only that cursor's sequence, and sets it to the ascending or
    descending order of the field's values ([direction = -1]
    descending).  The comparison on present values is the [$lt]/[$gt]
    rule; each result is a permutation with no neighbouring pair strictly
    out of order; documents missing the field sort lowest and are grouped
    together: first when ascending, last when descending.  Sorting
    ascending then descending gives exactly the reverse of the ascending
    order. *)
Theorem cursor_sort_ordering :
  (forall st cid f dir, exists st',
      cursor_sort cid f dir st = Ok (cid, st') /\ heap st' = heap st /\ coll st' = coll st /\
      (forall c, c <> cid -> cursors st' !! c = cursors st !! c)) /\
  (forall st cid f dir data, cursors st !! cid = Some data -> exists st',
      cursor_sort cid f dir st = Ok (cid, st') /\
      cursors st' !! cid = Some (if Z.eqb dir (-1) then sort_desc (field_key (heap st) f) data
                                 else sort_asc (field_key (heap st) f) data)) /\
  (forall x y,
      (key_lt (Some x) (Some y) = true <-> eval_op (Some x) "$lt" y = Ok true) /\
      (key_lt (Some x) (Some y) = true <-> eval_op (Some y) "$gt" x = Ok true)) /\
  (forall (A : Type) (key : A -> option value) (l : list A),
      Permutation (sort_asc key l) l /\
      Sorted (fun a b => key_lt (key b) (key a) = false) (sort_asc key l) /\
      sort_asc key l = List.filter (key_missing key) l ++
                       sort_asc key (List.filter (fun x => negb (key_missing key x)) l)) /\
  (forall (A : Type) (key : A -> option value) (l : list A),
      Permutation (sort_desc key l) l /\
      Sorted (fun a b => key_lt (key a) (key b) = false) (sort_desc key l) /\
      sort_desc key l = sort_desc key (List.filter (fun x => negb (key_missing key x)) l) ++
                        rev (List.filter (key_missing key) l)) /\
  (forall st cid f data st1 st2,
      cursors st !! cid = Some data ->
      cursor_sort cid f 1 st = Ok (cid, st1) ->
      cursor_sort cid f (-1) st1 = Ok (cid, st2) ->
      cursors st2 !! cid = option_map (@rev nat) (cursors st1 !! cid)).
Proof.
  split.
  { intros st cid f dir. unfold cursor_sort.
    destruct (cursors st !! cid) as [data|] eqn:E.
    - eexists. split; [reflexivity|]. cbn. split; [reflexivity|]. split; [reflexivity|].
      intros c Hc. apply lookup_insert_ne. congruence.
    - exists st. split; [reflexivity|]. auto. }
  split.
  { intros st cid f dir data E. rewrite (cursor_sort_some st cid f dir data E).
    eexists. split; [reflexivity|]. cbn. apply lookup_insert_eq. }
  split; [exact key_lt_rule|].
  split.
  { intros A key l. split; [apply sort_by_perm|]. split; [|apply sort_asc_missing].
    apply sort_by_sorted. intros a b. apply key_lt_asym. }
  split.
  { intros A key l. split; [apply sort_desc_perm|]. split; [|apply sort_desc_missing].
    unfold sort_desc. apply (sorted_rev (fun a b => key_lt (key b) (key a) = false)).
    apply sort_by_sorted. intros a b. apply key_lt_asym. }
  intros st cid f data st1 st2 E H1 H2.
  rewrite (cursor_sort_some st cid f 1 data E) in H1. injection H1 as <-.
  rewrite (cursor_sort_some _ cid f (-1) (sort_asc (field_key (heap st) f) data))
    in H2 by (cbn; apply lookup_insert_eq).
  injection H2 as <-. cbn. rewrite !lookup_insert_eq. cbn.
  rewrite sort_desc_asc_rev. reflexivity.
Qed.

(** C9: the theorem at three reachable documents with distinct [n]. *)
Lemma cursor_sort_ordering_witness :
  cursors (after_sort 0 "n" (-1) (after_sort 0 "n" 1 (demo_state demo_distinct))) !! 0%nat =
  option_map (@rev nat) (cursors (after_sort 0 "n" 1 (demo_state demo_distinct)) !! 0%nat).
Proof.
  apply (proj2 (proj2 (proj2 (proj2 (proj2 cursor_sort_ordering))))
           (demo_state demo_distinct) 0%nat "n"%string [3%nat; 4%nat; 5%nat]).
  - vm_compute. reflexivity.
  - vm_compute. reflexivity.
  - vm_compute. reflexivity.
Defined.

(** ** Materialising a cursor *)

(** C6.  [to_list(max_length)] on a cursor returns its whole sequence
    when the limit is [None] and its first [n] entries for a limit
    [n >= 0] (a negative limit is a Python slice: all but the last [-n]);
    it changes no state, so calling it again, with any limit, returns
    the same list as a first call with that limit. *)
Theorem to_list_materialize :
  (forall st cid data, cursors st !! cid = Some data ->
     to_list cid None st = Ok (Some data, st) /\
     (forall n, (0 <= n)%Z -> to_list cid (Some n) st = Ok (Some (take (Z.to_nat n) data), st)) /\
     (forall n, (n < 0)%Z ->
        to_list cid (Some n) st = Ok (Some (take (Z.to_nat (Z.of_nat (length data) + n)) data), st))) /\
  (forall st cid lim r st', to_list cid lim st = Ok (r, st') ->
     st' = st /\ forall lim', to_list cid lim' st' = to_list cid lim' st).
Proof.
  split.
  - intros st cid data E. unfold to_list. rewrite E. cbn. unfold py_prefix.
    split; [reflexivity|]. split.
    + intros n Hn. apply Z.leb_le in Hn. rewrite Hn. reflexivity.
    + intros n Hn. replace (Z.leb 0 n) with false by (symmetry; apply Z.leb_gt; exact Hn).
      reflexivity.
  - intros st cid lim r st' H. unfold to_list in H.
    destruct (cursors st !! cid); injection H as _ <-; split; reflexivity.
Qed.

(** C6: the theorem at a cursor over three documents, limit 2. *)
Lemma to_list_materialize_witness :
  to_list 0 (Some 2%Z) (demo_state demo_distinct) =
  Ok (Some [3%nat; 4%nat], demo_state demo_distinct).
Proof.
  apply (proj1 (proj2 (proj1 to_list_materialize (demo_state demo_distinct) 0%nat [3%nat; 4%nat; 5%nat]
                          ltac:(vm_compute; reflexivity))) 2%Z).
  lia.
Defined.

(** ** Updating *)

Lemma first_match_some (h : gmap nat doc) (q : doc) (pre rest : list nat) (l : nat) (d : doc) :
  wf_query q = true ->
  (forall l' d', In l' pre -> h !! l' = Some d' -> matchb d' q = false) ->
  h !! l = Some d -> matchb d q = true ->
  first_match h q (pre ++ l :: rest) = Ok (Some l).
Proof.
  intros Hwf Hpre Hl Hm. induction pre as [|l' pre IH]; cbn [first_match app].
  - rewrite Hl, (wf_matches d q Hwf), Hm. reflexivity.
  - destruct (h !! l') as [d'|] eqn:E.
    + rewrite (wf_matches d' q Hwf), (Hpre l' d' (or_introl eq_refl) E).
      apply IH. intros l'' d'' Hin. apply Hpre. right. exact Hin.
    + apply IH. intros l'' d'' Hin. apply Hpre. right. exact Hin.
Qed.

Lemma first_match_none (h : gmap nat doc) (q : doc) (ls : list nat) :
  wf_query q = true ->
  (forall l d, In l ls -> h !! l = Some d -> matchb d q = false) ->
  first_match h q ls = Ok None.
Proof.
  intros Hwf H. induction ls as [|l ls IH]; cbn [first_match]; [reflexivity|].
  destruct (h !! l) as [d|] eqn:E.
  - rewrite (wf_matches d q Hwf), (H l d (or_introl eq_refl) E).
    apply IH. intros l' d' Hin. apply H. right. exact Hin.
  - apply IH. intros l' d' Hin. apply H. right. exact Hin.
Qed.

Lemma lookup_set_field (k k' : string) (v : value) (d : doc) :
  lookup_field k (set_field k' v d) = if String.eqb k k' then Some v else lookup_field k d.
Proof.
  induction d as [|[k0 v0] r IH]; cbn.
  - reflexivity.
  - destruct (String.eqb_spec k' k0) as [->|Hne]; cbn.
    + destruct (String.eqb k k0); reflexivity.
    + destruct (String.eqb_spec k k0) as [->|Hk0].
      * destruct (String.eqb_spec k0 k') as [->|]; [congruence|reflexivity].
      * exact IH.
Qed.

Lemma lookup_field_notin (k : string) (u : doc) :
  ~ In k (map fst u) -> lookup_field k u = None.
Proof.
  induction u as [|[k' v] u IH]; cbn; intros H; [reflexivity|].
  destruct (String.eqb_spec k k') as [->|]; [exfalso; apply H; left; reflexivity|].
  apply IH. intros Hin. apply H. right. exact Hin.
Qed.

Lemma lookup_merge (d u : doc) (k : string) :
  List.NoDup (map fst u) ->
  lookup_field k (merge d u) =
  match lookup_field k u with Some v => Some v | None => lookup_field k d end.
Proof.
  unfold merge. revert d. induction u as [|[k' v] u IH]; intros d Hnd; cbn; [reflexivity|].
  cbn in Hnd. apply NoDup_cons_iff in Hnd as [Hn Hnd].
  rewrite (IH _ Hnd), lookup_set_field.
  destruct (String.eqb_spec k k') as [->|]; [|reflexivity].
  rewrite (lookup_field_notin k' u Hn). reflexivity.
Qed.

Lemma in_coll_docs (st : db) (l : nat) (d : doc) :
  In l (coll st) -> heap st !! l = Some d -> In d (coll_docs st).
Proof.
  intros Hin Hl. unfold coll_docs. apply list_elem_of_In, list_elem_of_omap.
  exists l. split; [apply list_elem_of_In, Hin|exact Hl].
Qed.

(** C5.  For a well-formed query, [update_one(query, update)] writes the
    shallow merge into the first document object of the collection, in
    storage order, that matches, and returns 1; with no match it returns
    0 and leaves the state unchanged.  After the merge a key of the update
    (keys of a mapping are distinct) has exactly the update's value, even
    when both values are documents, and every other key keeps its prior
    value; the spec's Alice/Bob example holds. *)
Theorem update_one_merge :
  (forall (st : db) (q u : doc) (pre rest : list nat) (l : nat) (d : doc),
     wf_query q = true -> coll st = pre ++ l :: rest ->
     (forall l' d', In l' pre -> heap st !! l' = Some d' -> matchb d' q = false) ->
     heap st !! l = Some d -> matchb d q = true ->
     update_one q u st = Ok (1%nat, set_heap (<[l := merge d u]> (heap st)) st)) /\
  (forall (st : db) (q u : doc),
     wf_query q = true ->
     (forall d, In d (coll_docs st) -> matchb d q = false) ->
     update_one q u st = Ok (0%nat, st)) /\
  (forall (d u : doc) (k : string), List.NoDup (map fst u) ->
     (forall v, In (k, v) u -> lookup_field k (merge d u) = Some v) /\
     (~ In k (map fst u) -> lookup_field k (merge d u) = lookup_field k d)) /\
  (exists st1 l st2,
     update_one [("aadhaar_id", VStr "A2")] [("status", VStr "flagged")] (demo_state demo_ab)
       = Ok (1%nat, st1) /\
     find_one [("aadhaar_id", VStr "A2")] None st1 = Ok (Some l, st2) /\
     option_map (lookup_field "status") (heap st2 !! l) = Some (Some (VStr "flagged")) /\
     option_map (lookup_field "name") (heap st2 !! l) = Some (Some (VStr "Bob"))).
Proof.
  split.
  { intros st q u pre rest l d Hwf Hc Hpre Hl Hm.
    unfold update_one, bind, gets, lift. cbn.
    rewrite Hc, (first_match_some _ _ _ _ _ _ Hwf Hpre Hl Hm), Hl. reflexivity. }
  split.
  { intros st q u Hwf H.
    unfold update_one, bind, gets, lift. cbn.
    rewrite first_match_none; [reflexivity|exact Hwf|].
    intros l d Hin Hl. apply H. exact (in_coll_docs st l d Hin Hl). }
  split.
  { intros d u k Hnd. split.
    - intros v Hin. rewrite (lookup_merge d u k Hnd).
      enough (Hu : lookup_field k u = Some v) by (rewrite Hu; reflexivity).
      clear d. induction u as [|[k' v'] u IH]; [destruct Hin|].
      cbn in Hnd |- *. apply NoDup_cons_iff in Hnd as [Hn Hnd].
      destruct Hin as [[= -> ->]|Hin].
      + rewrite String.eqb_refl. reflexivity.
      + destruct (String.eqb_spec k k') as [->|].
        * exfalso. apply Hn. apply (in_map fst _ _ Hin).
        * apply IH; assumption.
    - intros Hn. rewrite (lookup_merge d u k Hnd), (lookup_field_notin k u Hn). reflexivity. }
  do 3 eexists. split; [vm_compute; reflexivity|].
  split; [vm_compute; reflexivity|]. split; vm_compute; reflexivity.
Qed.

(** C5: the theorem at the Alice/Bob store, updating Bob. *)
Lemma update_one_merge_witness :
  update_one [("aadhaar_id", VStr "A2")] [("status", VStr "flagged")] (demo_state demo_ab) =
  Ok (1%nat, set_heap (<[1%nat := merge (bob ++ [("id", VStr "1-uuid")]) [("status", VStr "flagged")]]>
                         (heap (demo_state demo_ab)))
                      (demo_state demo_ab)).
Proof.
  apply (proj1 update_one_merge (demo_state demo_ab) _ _ [0%nat] [] 1%nat).
  - reflexivity.
  - vm_compute. reflexivity.
  - intros l' d' [<-|[]] E. vm_compute in E. injection E as <-. vm_compute. reflexivity.
  - vm_compute. reflexivity.
  - vm_compute. reflexivity.
Defined.

(** ** The store invariant and the footprint of each operation *)

Lemma inv_empty : inv empty_db.
Proof.
  split; cbn; [intros l []|]. intros c data H. rewrite lookup_empty in H. discriminate.
Qed.

Lemma inv_cursor_none (st : db) (c : nat) :
  inv st -> (next_cur st <= c)%nat -> cursors st !! c = None.
Proof.
  intros [_ I2] Hc. destruct (cursors st !! c) as [data|] eqn:E; [|reflexivity].
  apply I2 in E as [E _]. lia.
Qed.

Lemma cursor_rel_refl (b : bool) (o : option (list nat)) : cursor_rel b o o.
Proof. destruct o; cbn; [split; [reflexivity|auto]|exact I]. Qed.

Lemma frame_inv (b : bool) (st st' : db) : inv st -> step_frame b st st' -> inv st'.
Proof.
  intros [I1 I2] (F1 & F2 & F3 & F4 & F5 & F6). split.
  - intros l Hl. destruct (F3 l Hl) as [Hin|Hr]; [apply I1 in Hin; lia|lia].
  - intros c data E. destruct (Nat.lt_ge_cases c (next_cur st)) as [Hc|Hc].
    + specialize (F5 c Hc). rewrite E in F5.
      destruct (cursors st !! c) as [data0|] eqn:E0; [|destruct F5].
      destruct F5 as [Hp _]. destruct (I2 c data0 E0) as [Hc0 Hl0].
      split; [lia|]. intros l Hl. apply (Permutation_in _ Hp) in Hl.
      destruct (Hl0 l Hl) as [Hlt Hnin]. split; [lia|].
      intros Hin. destruct (F3 l Hin) as [Hin'|Hr]; [contradiction|lia].
    + destruct (F6 c data Hc E) as [Hlt Hl]. split; [exact Hlt|].
      intros l Hin. destruct (Hl l Hin) as [Hr Hn]. split; [lia|exact Hn].
Qed.

Lemma frame_refl (b : bool) (st : db) : inv st -> step_frame b st st.
Proof.
  intros Hi. split; [lia|]. split; [lia|]. split; [intros l Hl; left; exact Hl|]. split; [auto|].
  split; [intros c _; apply cursor_rel_refl|].
  intros c data Hc E. rewrite (inv_cursor_none st c Hi Hc) in E. discriminate.
Qed.

Lemma frame_trans (b1 b2 : bool) (st st1 st2 : db) :
  inv st -> step_frame b1 st st1 -> step_frame b2 st1 st2 -> step_frame (b1 && b2) st st2.
Proof.
  intros Hi Hf1 Hf2.
  pose proof (frame_inv _ _ _ Hi Hf1) as Hi1.
  destruct Hi as [I1 I2], Hf1 as (A1 & A2 & A3 & A4 & A5 & A6),
           Hf2 as (B1 & B2 & B3 & B4 & B5 & B6).
  split; [lia|]. split; [lia|]. split.
  { intros l Hl. destruct (B3 l Hl) as [H|H]; [|right; lia].
    destruct (A3 l H) as [H'|H']; [left; exact H'|right; lia]. }
  split.
  { intros l Hl Hn. rewrite B4; [apply A4; assumption|lia|].
    intros Hin. destruct (A3 l Hin) as [H|H]; [contradiction|lia]. }
  split.
  { intros c Hc. specialize (A5 c Hc). specialize (B5 c ltac:(lia)).
    destruct (cursors st !! c), (cursors st1 !! c), (cursors st2 !! c); cbn in *; try easy.
    destruct A5 as [Pa Ea], B5 as [Pb Eb]. split; [etransitivity; eassumption|].
    intros Hb. apply andb_prop in Hb as [Hb1 Hb2]. rewrite (Eb Hb2), (Ea Hb1). reflexivity. }
  intros c data Hc E. destruct (Nat.lt_ge_cases c (next_cur st1)) as [Hc1|Hc1].
  - specialize (B5 c Hc1). rewrite E in B5.
    destruct (cursors st1 !! c) as [d1|] eqn:E1; [|destruct B5].
    destruct B5 as [Hp _]. destruct (A6 c d1 Hc E1) as [Hlt Hl].
    split; [lia|]. intros l Hin. apply (Permutation_in _ Hp) in Hin.
    destruct (Hl l Hin) as [Hr Hn]. split; [lia|].
    intros Hin2. destruct (B3 l Hin2) as [H|H]; [contradiction|lia].
  - destruct (B6 c data Hc1 E) as [Hlt Hl]. split; [exact Hlt|].
    intros l Hin. destruct (Hl l Hin) as [Hr Hn]. split; [lia|exact Hn].
Qed.

Lemma frame_set_heap (b : bool) (st : db) (h' : gmap nat doc) :
  inv st -> (forall l, (l < next_loc st)%nat -> ~ In l (coll st) -> h' !! l = heap st !! l) ->
  step_frame b st (set_heap h' st).
Proof.
  intros Hi Hh. destruct (frame_refl b st Hi) as (F1 & F2 & F3 & _ & F5 & F6).
  split; [exact F1|]. split; [exact F2|]. split; [exact F3|]. split; [exact Hh|].
  split; [exact F5|exact F6].
Qed.

Lemma frame_set_coll (b : bool) (st : db) (c : list nat) :
  inv st -> (forall l, In l c -> In l (coll st)) -> step_frame b st (set_coll c st).
Proof.
  intros Hi Hc. pose proof Hi as [_ I2]. cbn.
  split; [cbn; lia|]. split; [cbn; lia|]. split; [intros l Hl; left; apply Hc, Hl|].
  split; [reflexivity|]. split; [intros; apply cursor_rel_refl|].
  intros c' data Hc' E. cbn in *. rewrite (inv_cursor_none st c' Hi Hc') in E. discriminate.
Qed.

Lemma frame_alloc (b : bool) (st : db) (d : doc) :
  inv st ->
  step_frame b st (mkDB (<[next_loc st := d]> (heap st)) (S (next_loc st)) (coll st)
                        (cursors st) (next_cur st) (uuid_ctr st)).
Proof.
  intros Hi. unfold step_frame; cbn [next_loc next_cur coll heap cursors]. split; [lia|]. split; [lia|]. split; [intros l Hl; left; exact Hl|].
  split; [intros l Hl _; apply lookup_insert_ne; lia|].
  split; [intros; apply cursor_rel_refl|].
  intros c data Hc E. rewrite (inv_cursor_none st c Hi Hc) in E. discriminate.
Qed.

Lemma frame_insert_loc (b : bool) (st : db) (d : doc) (ctr : nat) :
  inv st ->
  step_frame b st (mkDB (<[next_loc st := d]> (heap st)) (S (next_loc st)) (coll st ++ [next_loc st])
                        (cursors st) (next_cur st) ctr).
Proof.
  intros Hi. unfold step_frame; cbn [next_loc next_cur coll heap cursors]. split; [lia|]. split; [lia|].
  split; [intros l Hl; apply in_app_or in Hl as [H|[<-|[]]]; [left; exact H|right; lia]|].
  split; [intros l Hl _; apply lookup_insert_ne; lia|].
  split; [intros; apply cursor_rel_refl|].
  intros c data Hc E. rewrite (inv_cursor_none st c Hi Hc) in E. discriminate.
Qed.

Lemma frame_new_cursor (b : bool) (st : db) (ds : list doc) :
  inv st ->
  step_frame b st
    (mkDB (alloc_heap (heap st) (next_loc st) ds) (next_loc st + length ds) (coll st)
          (<[next_cur st := seq (next_loc st) (length ds)]> (cursors st))
          (S (next_cur st)) (uuid_ctr st)).
Proof.
  intros Hi. pose proof Hi as [I1 _]. unfold step_frame; cbn [next_loc next_cur coll heap cursors]. split; [lia|]. split; [lia|]. split; [intros l Hl; left; exact Hl|].
  split; [intros l Hl _; apply alloc_heap_outside; lia|].
  split; [intros c Hc; rewrite lookup_insert_ne by lia; apply cursor_rel_refl|].
  intros c data Hc E. destruct (Nat.eq_dec c (next_cur st)) as [->|Hne].
  - rewrite lookup_insert_eq in E. injection E as <-. split; [lia|].
    intros l Hl. apply in_seq in Hl. split; [lia|]. intros Hin. apply I1 in Hin. lia.
  - rewrite lookup_insert_ne in E by congruence.
    rewrite (inv_cursor_none st c Hi Hc) in E. discriminate.
Qed.

Lemma select_sub (h : gmap nat doc) (q : doc) (ls r : list nat) :
  select h q ls = Ok r -> forall l, In l r -> In l ls.
Proof.
  revert r. induction ls as [|l0 ls IH]; intros r H l Hl; cbn [select] in H.
  - injection H as <-. destruct Hl.
  - destruct (h !! l0) as [d|].
    + destruct (matches d q) as [b|]; [|discriminate].
      destruct (select h q ls) as [r'|] eqn:E; [|discriminate].
      injection H as <-. destruct b; [destruct Hl as [<-|Hl]; [left; reflexivity|]|];
        right; exact (IH r' eq_refl l Hl).
    + right. exact (IH r H l Hl).
Qed.

Lemma first_match_in (h : gmap nat doc) (q : doc) (ls : list nat) (l : nat) :
  first_match h q ls = Ok (Some l) -> In l ls.
Proof.
  induction ls as [|l0 ls IH]; intros H; cbn [first_match] in H; [discriminate|].
  destruct (h !! l0) as [d|]; [|right; apply IH, H].
  destruct (matches d q) as [[|]|]; [injection H as <-; left; reflexivity|right; apply IH, H|discriminate].
Qed.

Lemma remove_first_sub (l : nat) (c : list nat) (x : nat) : In x (remove_first l c) -> In x c.
Proof.
  induction c as [|y c IH]; cbn; [auto|].
  destruct (Nat.eqb l y); [intros H; right; exact H|intros [H|H]; [left; exact H|right; apply IH, H]].
Qed.

Lemma insert_frame (uuid : nat -> string) (st st' : db) (d d' : doc) :
  inv st -> insert uuid d st = Ok (d', st') -> step_frame true st st'.
Proof.
  intros Hi H. unfold insert in H.
  destruct (lookup_field "id" d); injection H as _ <-; apply frame_insert_loc, Hi.
Qed.

Lemma insert_many_frame (uuid : nat -> string) (ds : list doc) (st st' : db) (r : list doc) :
  inv st -> insert_many uuid ds st = Ok (r, st') -> step_frame true st st'.
Proof.
  revert st r. induction ds as [|d ds IH]; intros st r Hi H; cbn [insert_many] in H.
  - unfold ret in H. injection H as _ <-. apply frame_refl, Hi.
  - unfold bind in H. destruct (insert uuid d st) as [[d1 st1]|e] eqn:E; [|discriminate].
    destruct (insert_many uuid ds st1) as [[r1 st2]|e] eqn:E2; [|discriminate].
    unfold ret in H. injection H as _ <-.
    pose proof (insert_frame uuid st st1 d d1 Hi E) as F1.
    exact (frame_trans true true st st1 st2 Hi F1 (IH st1 r1 (frame_inv _ _ _ Hi F1) E2)).
Qed.

Ltac unfold_run H := unfold run_op, bind, ret, gets, lift, modify in H; cbv beta in H.

Lemma run_op_frame (uuid : nat -> string) (o : op) (st st' : db) :
  inv st -> run_op uuid o st = Ok (tt, st') -> step_frame (coll_op o) st st'.
Proof.
  intros Hi H. destruct o as [d|ds|q p|q p|q|q u|q|q|cid f dir|cid n]; cbn [coll_op].
  - unfold_run H. destruct (insert uuid d st) as [[d' st1]|e] eqn:E; [|discriminate].
    injection H as <-. exact (insert_frame uuid st st1 d d' Hi E).
  - unfold_run H. destruct (insert_many uuid ds st) as [[r st1]|e] eqn:E; [|discriminate].
    injection H as <-. exact (insert_many_frame uuid ds st st1 r Hi E).
  - unfold_run H. rewrite find_eq in H.
    destruct (select (heap st) q (coll st)); [|discriminate].
    injection H as <-. apply frame_new_cursor, Hi.
  - unfold_run H. unfold find_one, bind, gets, lift, ret in H. cbv beta in H.
    destruct (first_match (heap st) q (coll st)) as [[l|]|]; [|injection H as <-; apply frame_refl, Hi|discriminate].
    destruct (heap st !! l) as [d|]; [|injection H as <-; apply frame_refl, Hi].
    unfold alloc in H. injection H as <-. apply frame_alloc, Hi.
  - unfold_run H. unfold count_documents, bind, gets, lift, ret in H. cbv beta in H.
    destruct (select (heap st) q (coll st)); [|discriminate]. injection H as <-. apply frame_refl, Hi.
  - unfold_run H. unfold update_one, bind, gets, lift, ret, modify in H. cbv beta in H.
    destruct (first_match (heap st) q (coll st)) as [[l|]|] eqn:E;
      [|injection H as <-; apply frame_refl, Hi|discriminate].
    destruct (heap st !! l) as [d|]; [|injection H as <-; apply frame_refl, Hi].
    injection H as <-. apply frame_set_heap; [exact Hi|].
    intros l' _ Hn. apply lookup_insert_ne. intros ->. apply Hn. exact (first_match_in _ _ _ _ E).
  - unfold_run H. unfold delete_one, bind, gets, lift, ret, modify in H. cbv beta in H.
    destruct (first_match (heap st) q (coll st)) as [[l|]|];
      [|injection H as <-; apply frame_refl, Hi|discriminate].
    injection H as <-. apply frame_set_coll; [exact Hi|]. apply remove_first_sub.
  - unfold_run H. unfold delete_many, bind, gets, lift, ret, modify in H. cbv beta in H.
    destruct (select (heap st) q (coll st)); [|discriminate].
    injection H as <-. apply frame_set_coll; [exact Hi|].
    intros l Hl. apply filter_In in Hl as [Hl _]. exact Hl.
  - unfold_run H. unfold cursor_sort in H.
    destruct (cursors st !! cid) as [data|] eqn:E; [|injection H as <-; apply frame_refl, Hi].
    injection H as <-. pose proof Hi as [_ I2].
    split; [cbn; lia|]. split; [cbn; lia|]. split; [cbn; auto|]. split; [cbn; auto|].
    split.
    + intros c Hc. cbn. destruct (Nat.eq_dec c cid) as [->|Hne].
      * rewrite lookup_insert_eq, E. cbn. split; [|discriminate].
        destruct (Z.eqb dir (-1)); [apply sort_desc_perm|apply sort_by_perm].
      * rewrite lookup_insert_ne by congruence. apply cursor_rel_refl.
    + intros c data' Hc E'. cbn in E'. exfalso. destruct (Nat.eq_dec c cid) as [->|Hne].
      * destruct (I2 cid data E). lia.
      * rewrite lookup_insert_ne in E' by congruence.
        rewrite (inv_cursor_none st c Hi Hc) in E'. discriminate.
  - unfold_run H. unfold to_list in H.
    destruct (cursors st !! cid); injection H as <-; apply frame_refl, Hi.
Qed.

Lemma reachable_inv (uuid : nat -> string) (st : db) : reachable uuid st -> inv st.
Proof.
  induction 1 as [|o st st' _ IH H]; [exact inv_empty|].
  exact (frame_inv _ _ _ IH (run_op_frame uuid o st st' IH H)).
Qed.

Lemma run_ops_frame (uuid : nat -> string) (os : list op) (st st' : db) :
  inv st -> run_ops uuid os st = Ok (tt, st') -> step_frame (forallb coll_op os) st st'.
Proof.
  revert st. induction os as [|o os IH]; intros st Hi H; cbn in H.
  - injection H as <-. apply frame_refl, Hi.
  - unfold bind in H. destruct (run_op uuid o st) as [[[] st1]|e] eqn:E; [|discriminate].
    pose proof (run_op_frame uuid o st st1 Hi E) as F1.
    exact (frame_trans _ _ _ _ _ Hi F1 (IH st1 (frame_inv _ _ _ Hi F1) H)).
Qed.

Lemma omap_heap_ext (h h' : gmap nat doc) (ls : list nat) :
  (forall l, In l ls -> h' !! l = h !! l) ->
  omap (fun l => h' !! l) ls = omap (fun l => h !! l) ls.
Proof.
  induction ls as [|l ls IH]; intros H; cbn; [reflexivity|].
  rewrite (H l (or_introl eq_refl)), IH by (intros l' Hl'; apply H; right; exact Hl').
  reflexivity.
Qed.

Lemma in_take {A} (n : nat) (l : list A) (x : A) : In x (take n l) -> In x l.
Proof.
  revert l. induction n as [|n IH]; intros [|y l]; cbn; try easy.
  intros [->|H]; [left; reflexivity|right; apply IH, H].
Qed.

Lemma in_slice_limit {A} (data : list A) (lim : option Z) (x : A) :
  In x (slice_limit data lim) -> In x data.
Proof.
  destruct lim as [n|]; cbn; [|auto]. unfold py_prefix.
  destruct (Z.leb 0 n); apply in_take.
Qed.

Lemma run_find (uuid : nat -> string) (q : doc) (p : option doc) (st st1 : db) (cid : nat) :
  find q p st = Ok (cid, st1) -> run_op uuid (OFind q p) st = Ok (tt, st1).
Proof. intros H. unfold run_op, bind, ret. rewrite H. reflexivity. Qed.

Lemma run_insert (uuid : nat -> string) (d d' : doc) (st st1 : db) :
  insert uuid d st = Ok (d', st1) -> run_op uuid (OInsert d) st = Ok (tt, st1).
Proof. intros H. unfold run_op, bind, ret. rewrite H. reflexivity. Qed.

(** A cursor of a reachable state survives every later operation: its
    sequence is only reordered (and not even that by collection
    operations), and its document objects keep their contents. *)
Lemma cursor_persists (uuid : nat -> string) (st st' : db) (cid : nat) (data : list nat) (os : list op) :
  reachable uuid st -> cursors st !! cid = Some data -> run_ops uuid os st = Ok (tt, st') ->
  exists data', cursors st' !! cid = Some data' /\ Permutation data' data /\
    (forallb coll_op os = true -> data' = data) /\
    Forall (fun l => heap st' !! l = heap st !! l) data.
Proof.
  intros Hr E H. pose proof (reachable_inv uuid st Hr) as Hi.
  pose proof Hi as [_ I2]. destruct (I2 cid data E) as [Hc Hl].
  destruct (run_ops_frame uuid os st st' Hi H) as (_ & _ & _ & F4 & F5 & _).
  specialize (F5 cid Hc). rewrite E in F5.
  destruct (cursors st' !! cid) as [data'|]; [|destruct F5].
  destruct F5 as [Hp Heq]. exists data'. split; [reflexivity|]. split; [exact Hp|].
  split; [exact Heq|]. apply List.Forall_forall. intros l Hin.
  destruct (Hl l Hin) as [Hlt Hn]. exact (F4 l Hlt Hn).
Qed.

(** C4.  The cursor made by [find] is a snapshot: after any later
    operations it still holds the same document objects with the same
    contents, reordered only by its own [sort]; after collection
    operations alone (inserts, updates, deletes, other reads) it
    returns exactly the documents that matched at [find] time, so in
    particular a document inserted afterwards never appears.  [sort]
    and [to_list] do not read the collection. *)
Theorem cursor_snapshot_isolation :
  (forall uuid st q p cid st1 os st2,
     reachable uuid st -> find q p st = Ok (cid, st1) -> run_ops uuid os st1 = Ok (tt, st2) ->
     exists data data', cursors st1 !! cid = Some data /\ cursors st2 !! cid = Some data' /\
       Permutation data' data /\ (forallb coll_op os = true -> data' = data) /\
       Forall (fun l => heap st2 !! l = heap st1 !! l) data) /\
  (forall uuid st q p cid st1 os st2 ls,
     reachable uuid st -> select (heap st) q (coll st) = Ok ls ->
     find q p st = Ok (cid, st1) -> run_ops uuid os st1 = Ok (tt, st2) ->
     forallb coll_op os = true ->
     cursor_docs st2 cid = Some (map (project p) (omap (fun l => heap st !! l) ls))) /\
  (forall uuid st q p cid st1 d d' st2,
     reachable uuid st -> find q p st = Ok (cid, st1) -> insert uuid d st1 = Ok (d', st2) ->
     cursor_docs st2 cid = cursor_docs st1 cid) /\
  (forall st c cid f dir lim,
     to_list cid lim (set_coll c st) =
       match to_list cid lim st with Ok (r, st') => Ok (r, set_coll c st') | Err e => Err e end /\
     cursor_sort cid f dir (set_coll c st) =
       match cursor_sort cid f dir st with Ok (r, st') => Ok (r, set_coll c st') | Err e => Err e end).
Proof.
  assert (Hfind : forall uuid st q p cid st1,
            reachable uuid st -> find q p st = Ok (cid, st1) ->
            reachable uuid st1 /\ exists data, cursors st1 !! cid = Some data).
  { intros uuid st q p cid st1 Hr Hf. split; [exact (reach_step uuid _ st st1 Hr (run_find uuid q p st st1 cid Hf))|].
    rewrite find_eq in Hf. destruct (select (heap st) q (coll st)); [|discriminate].
    injection Hf as <- <-. cbn. eexists. apply lookup_insert_eq. }
  assert (Hcol : forall uuid st q p cid st1 os st2,
     reachable uuid st -> find q p st = Ok (cid, st1) -> run_ops uuid os st1 = Ok (tt, st2) ->
     forallb coll_op os = true -> cursor_docs st2 cid = cursor_docs st1 cid).
  { intros uuid st q p cid st1 os st2 Hr Hf Hos Hb.
    destruct (Hfind uuid st q p cid st1 Hr Hf) as [Hr1 [data E]].
    destruct (cursor_persists uuid st1 st2 cid data os Hr1 E Hos) as (data' & E' & _ & Heq & Hh).
    rewrite (Heq Hb) in E'. unfold cursor_docs. rewrite E, E'. f_equal.
    apply omap_heap_ext. apply List.Forall_forall. exact Hh. }
  split.
  { intros uuid st q p cid st1 os st2 Hr Hf Hos.
    destruct (Hfind uuid st q p cid st1 Hr Hf) as [Hr1 [data E]].
    destruct (cursor_persists uuid st1 st2 cid data os Hr1 E Hos) as (data' & E' & Hp & Heq & Hh).
    exists data, data'. auto. }
  split.
  { intros uuid st q p cid st1 os st2 ls Hr Hs Hf Hos Hb.
    rewrite (Hcol uuid st q p cid st1 os st2 Hr Hf Hos Hb).
    exact (proj2 (find_cursor_docs q p st st1 cid ls Hs Hf)). }
  split.
  { intros uuid st q p cid st1 d d' st2 Hr Hf Hi.
    apply (Hcol uuid st q p cid st1 [OInsert d] st2 Hr Hf); [|reflexivity].
    cbn [run_ops]. unfold bind. rewrite (run_insert uuid d d' st1 st2 Hi). reflexivity. }
  intros st c cid f dir lim. split.
  - unfold to_list. cbn. destruct (cursors st !! cid); reflexivity.
  - unfold cursor_sort. cbn. destruct (cursors st !! cid); reflexivity.
Qed.

(** C4: the theorem at the distinct-keys store: [find({})], then an insert. *)
Lemma cursor_snapshot_isolation_witness :
  cursor_docs (match insert demo_uuid [("n", VNum 9)]
                       (demo_state (demo_distinct ++ [OFind [] None])) with
               | Ok (_, st) => st | Err _ => empty_db end) 1%nat =
  cursor_docs (demo_state (demo_distinct ++ [OFind [] None])) 1%nat.
Proof.
  apply (proj1 (proj2 (proj2 cursor_snapshot_isolation)) demo_uuid
           (demo_state demo_distinct) [] None 1%nat
           (demo_state (demo_distinct ++ [OFind [] None])) [("n", VNum 9)]
           [("n", VNum 9); ("id", VStr "3-uuid")]).
  - apply (run_ops_reachable demo_uuid demo_distinct empty_db); [constructor|].
    vm_compute. reflexivity.
  - vm_compute. reflexivity.
  - vm_compute. reflexivity.
Defined.

(** ** Reads return copies *)

(** C8.  In every reachable state the objects a read hands out are not
    objects of the collection: those of the cursor made by [find], the
    one returned by [find_one], and those [to_list] returns.  [find] and
    [find_one], projection included, leave the stored documents as they
    were, and a caller writing to an object outside the collection leaves
    them unchanged too. *)
Theorem read_returns_copies :
  (forall uuid st q p cid st1 data,
     reachable uuid st -> find q p st = Ok (cid, st1) -> cursors st1 !! cid = Some data ->
     Forall (fun l => ~ In l (coll st1)) data /\ coll st1 = coll st /\ coll_docs st1 = coll_docs st) /\
  (forall uuid st q p l st1,
     reachable uuid st -> find_one q p st = Ok (Some l, st1) ->
     ~ In l (coll st1) /\ coll st1 = coll st /\ coll_docs st1 = coll_docs st) /\
  (forall uuid st cid lim ls st1,
     reachable uuid st -> to_list cid lim st = Ok (Some ls, st1) ->
     Forall (fun l => ~ In l (coll st1)) ls) /\
  (forall st l d, ~ In l (coll st) ->
     coll_docs (set_heap (<[l := d]> (heap st)) st) = coll_docs st).
Proof.
  split.
  { intros uuid st q p cid st1 data Hr Hf E.
    pose proof (reachable_inv uuid st Hr) as [I1 _].
    pose proof (reachable_inv uuid st1 (reach_step uuid _ st st1 Hr (run_find uuid q p st st1 cid Hf)))
      as [_ I2'].
    split.
    { apply List.Forall_forall. intros l Hl. exact (proj2 (proj2 (I2' cid data E) l Hl)). }
    rewrite find_eq in Hf. destruct (select (heap st) q (coll st)); [|discriminate].
    injection Hf as _ <-. split; [reflexivity|]. unfold coll_docs. cbn.
    apply omap_heap_ext. intros l Hl. apply alloc_heap_outside. left. exact (I1 l Hl). }
  split.
  { intros uuid st q p l st1 Hr Hf.
    pose proof (reachable_inv uuid st Hr) as [I1 _].
    unfold find_one, bind, gets, lift, ret in Hf. cbv beta in Hf.
    destruct (first_match (heap st) q (coll st)) as [[l0|]|]; [|discriminate|discriminate].
    destruct (heap st !! l0) as [d|]; [|discriminate].
    unfold alloc in Hf. injection Hf as <- <-. cbn. split.
    - intros Hin. apply I1 in Hin. lia.
    - split; [reflexivity|]. unfold coll_docs. cbn. apply omap_heap_ext.
      intros l Hl. apply lookup_insert_ne. apply I1 in Hl. lia. }
  split.
  { intros uuid st cid lim ls st1 Hr H.
    pose proof (reachable_inv uuid st Hr) as [_ I2].
    unfold to_list in H. destruct (cursors st !! cid) as [data|] eqn:E; [|discriminate].
    injection H as <- <-. apply List.Forall_forall. intros l Hl.
    apply in_slice_limit in Hl. exact (proj2 (proj2 (I2 cid data E) l Hl)). }
  intros st l d Hn. unfold coll_docs. cbn. apply omap_heap_ext.
  intros l' Hl'. apply lookup_insert_ne. intros ->. contradiction.
Qed.

(** C8: the theorem at the distinct-keys store, reading with [find({})]. *)
Lemma read_returns_copies_witness :
  Forall (fun l => ~ In l (coll (demo_state demo_distinct))) [3%nat; 4%nat; 5%nat] /\
  coll (demo_state demo_distinct) = coll (demo_state (removelast demo_distinct)) /\
  coll_docs (demo_state demo_distinct) = coll_docs (demo_state (removelast demo_distinct)).
Proof.
  apply (proj1 read_returns_copies demo_uuid (demo_state (removelast demo_distinct)) [] None 0%nat).
  - apply (run_ops_reachable demo_uuid (removelast demo_distinct) empty_db); [constructor|].
    vm_compute. reflexivity.
  - vm_compute. reflexivity.
  - vm_compute. reflexivity.
Defined.

(** ** Inserting *)

Lemma lookup_field_app_none (k : string) (d e : doc) :
  lookup_field k d = None -> lookup_field k (d ++ e) = lookup_field k e.
Proof.
  induction d as [|[k' v] d IH]; cbn; [reflexivity|].
  destruct (String.eqb k k'); [discriminate|exact IH].
Qed.

Lemma matchb_id (d : doc) (s : string) :
  matchb d [("id", VStr s)] = opt_eqb (lookup_field "id" d) (VStr s).
Proof.
  unfold matchb. rewrite matches_cons, matches_nil. cbn [String.eqb Ascii.eqb Bool.eqb].
  unfold match_field. destruct (opt_eqb (lookup_field "id" d) (VStr s)); reflexivity.
Qed.

Lemma opt_eqb_str (o : option value) (s : string) :
  opt_eqb o (VStr s) = true -> o = Some (VStr s).
Proof.
  destruct o as [[t| | | | |]|]; cbn; try discriminate.
  intros H. apply String.eqb_eq in H. subst. reflexivity.
Qed.

(** C1.  Inserting a document without [id] into a reachable store appends
    the field [id] with the identity generated next, stores the result as
    the last document of the collection and returns it; when the generated
    identity is non-empty and new to the collection (the contract of the
    external generator), [find_one({id: that value})] then returns exactly
    that document.  A document that has an [id] is stored and returned
    unchanged, and no identity is generated. *)
Theorem insert_assigns_identity :
  forall (uuid : nat -> string) (st : db) (d : doc), reachable uuid st ->
  (lookup_field "id" d = None ->
   uuid (uuid_ctr st) <> EmptyString ->
   (forall d0, In d0 (coll_docs st) -> lookup_field "id" d0 <> Some (VStr (uuid (uuid_ctr st)))) ->
   exists st',
     insert uuid d st = Ok (d ++ [("id", VStr (uuid (uuid_ctr st)))], st') /\
     lookup_field "id" (d ++ [("id", VStr (uuid (uuid_ctr st)))]) = Some (VStr (uuid (uuid_ctr st))) /\
     uuid (uuid_ctr st) <> EmptyString /\
     coll_docs st' = coll_docs st ++ [d ++ [("id", VStr (uuid (uuid_ctr st)))]] /\
     exists l st'',
       find_one [("id", VStr (uuid (uuid_ctr st)))] None st' = Ok (Some l, st'') /\
       heap st'' !! l = Some (d ++ [("id", VStr (uuid (uuid_ctr st)))])) /\
  (forall v0, lookup_field "id" d = Some v0 ->
   exists st', insert uuid d st = Ok (d, st') /\
     coll_docs st' = coll_docs st ++ [d] /\ uuid_ctr st' = uuid_ctr st).
Proof.
  intros uuid st d Hr. pose proof (reachable_inv uuid st Hr) as [I1 _].
  assert (Hold : forall d', omap (fun l => <[next_loc st := d']> (heap st) !! l) (coll st) = coll_docs st).
  { intros d'. apply omap_heap_ext. intros l Hl. apply lookup_insert_ne. apply I1 in Hl. lia. }
  split.
  - intros Hnone Hne Hfresh. set (v := uuid (uuid_ctr st)) in *.
    set (d' := d ++ [("id", VStr v)]).
    set (st' := mkDB (<[next_loc st := d']> (heap st)) (S (next_loc st)) (coll st ++ [next_loc st])
                     (cursors st) (next_cur st) (S (uuid_ctr st))).
    exists st'. split; [unfold insert; rewrite Hnone; reflexivity|].
    split; [unfold d'; rewrite lookup_field_app_none by exact Hnone; cbn; reflexivity|].
    split; [exact Hne|].
    assert (Hdocs : coll_docs st' = coll_docs st ++ [d']).
    { unfold coll_docs at 1. cbn. rewrite omap_app, Hold. cbn. rewrite lookup_insert_eq. reflexivity. }
    split; [exact Hdocs|].
    assert (Hfm : first_match (heap st') [("id", VStr v)] (coll st') = Ok (Some (next_loc st))).
    { apply first_match_some with (d := d'); [reflexivity| |cbn; apply lookup_insert_eq|].
      - intros l' d0 Hin E. cbn in E. rewrite lookup_insert_ne in E by (apply I1 in Hin; lia).
        rewrite matchb_id. destruct (opt_eqb (lookup_field "id" d0) (VStr v)) eqn:Eq; [|reflexivity].
        exfalso. apply (Hfresh d0 (in_coll_docs st l' d0 Hin E)). exact (opt_eqb_str _ _ Eq).
      - rewrite matchb_id. unfold d'. rewrite lookup_field_app_none by exact Hnone.
        cbn. rewrite String.eqb_refl. reflexivity. }
    eexists. eexists. split.
    + unfold find_one, bind, gets, lift, ret. cbv beta. rewrite Hfm.
      cbn [heap st']. rewrite lookup_insert_eq. unfold alloc. reflexivity.
    + cbn. apply lookup_insert_eq.
  - intros v0 Hid. eexists. split; [unfold insert; rewrite Hid; reflexivity|].
    split; [|reflexivity]. unfold coll_docs at 1. cbn. rewrite omap_app, Hold. cbn.
    rewrite lookup_insert_eq. reflexivity.
Qed.

(** C1: the theorem at the store holding Alice and Bob (ids ["0-uuid"]
    and ["1-uuid"]), inserting Carol: she gets ["2-uuid"], which no stored
    document carries, and [find_one] retrieves her among the three. *)
Lemma insert_assigns_identity_witness :
  exists st', insert demo_uuid carol (demo_state demo_ab) =
      Ok (carol ++ [("id", VStr "2-uuid")], st') /\
    lookup_field "id" (carol ++ [("id", VStr "2-uuid")]) = Some (VStr "2-uuid") /\
    "2-uuid"%string <> EmptyString /\
    coll_docs st' = coll_docs (demo_state demo_ab) ++ [carol ++ [("id", VStr "2-uuid")]] /\
    exists l st'', find_one [("id", VStr "2-uuid")] None st' = Ok (Some l, st'') /\
      heap st'' !! l = Some (carol ++ [("id", VStr "2-uuid")]).
Proof.
  apply (proj1 (insert_assigns_identity demo_uuid (demo_state demo_ab) carol
                  (run_ops_reachable demo_uuid demo_ab empty_db (demo_state demo_ab)
                     (reach_init demo_uuid) eq_refl))).
  - reflexivity.
  - discriminate.
  - intros d0 Hd. vm_compute in Hd.
    destruct Hd as [<-|[<-|[]]]; vm_compute; discriminate.
Defined.

(* ================================================================== *)
(** * Further properties of the code in the notes *)

(** ** The matcher loop *)

Lemma matches_app_split (d q1 q2 : doc) :
  matches d (q1 ++ q2) =
  match matches d q1 with
  | Ok true => matches d q2
  | r => r
  end.
Proof.
  induction q1 as [|[k v] q1 IH].
  - reflexivity.
  - cbn [List.app]. rewrite !matches_cons.
    destruct (String.eqb k "$or").
    + destruct (or_value d v) as [[|]|e]; [exact IH|reflexivity|reflexivity].
    + destruct (match_field d k v) as [[|]|e]; [exact IH|reflexivity|reflexivity].
Qed.

(** X1: a query is checked key by key: the first part of a concatenated
    query decides unless it matches, and only then is the second part
    evaluated. *)
Theorem matches_app (d q1 q2 : doc) :
  matches d (q1 ++ q2) =
  match matches d q1 with
  | Ok true => matches d q2
  | r => r
  end.
Proof. apply matches_app_split. Qed.

(** X2: a [$or] with a single clause is the clause itself, checked in
    place of the [$or] key. *)
Theorem or_single_clause (d q rest : doc) :
  matches d (("$or", VList [VDoc q]) :: rest) = matches d (q ++ rest).
Proof.
  rewrite matches_cons, matches_app_split. cbn [String.eqb Ascii.eqb Bool.eqb].
  rewrite or_value_cons, or_value_nil.
  change (matches_v d (VDoc q)) with (matches d q).
  destruct (matches d q) as [[|]|e]; reflexivity.
Qed.

(** X3: [any] stops at the first matching clause: the clauses after it are
    never evaluated, and the query goes on with its next key. *)
Theorem or_stops_at_first_match (d : doc) (cs1 cs2 : list value) (c : value) (rest : doc) :
  Forall (fun c' => matches_v d c' = Ok false) cs1 ->
  matches_v d c = Ok true ->
  matches d (("$or", VList (cs1 ++ c :: cs2)) :: rest) = matches d rest.
Proof.
  intros Hpre Hc. rewrite matches_cons. cbn [String.eqb Ascii.eqb Bool.eqb].
  assert (E : or_value d (VList (cs1 ++ c :: cs2)) = Ok true).
  { induction Hpre as [|c' cs1 Hc' _ IH].
    - cbn [List.app]. rewrite or_value_cons, Hc. reflexivity.
    - cbn [List.app]. rewrite or_value_cons, Hc'. exact IH. }
  rewrite E. reflexivity.
Qed.

(** X4: [return False] after a [$or] none of whose clauses matches: the keys
    after it are never evaluated. *)
Theorem or_no_clause_stops (d : doc) (cs : list value) (rest : doc) :
  Forall (fun c => matches_v d c = Ok false) cs ->
  matches d (("$or", VList cs) :: rest) = Ok false.
Proof.
  intros Hall. rewrite matches_cons. cbn [String.eqb Ascii.eqb Bool.eqb].
  assert (E : or_value d (VList cs) = Ok false).
  { induction Hall as [|c cs Hc _ IH].
    - apply or_value_nil.
    - rewrite or_value_cons, Hc. exact IH. }
  rewrite E. reflexivity.
Qed.

(** ** [MockCursor.to_list] *)

(** X5: [to_list(n)] returns the first [n] documents of the cursor, Python
    slice bounds included ([n] past the end gives all of them, a negative
    [n] drops [-n] from the end), and leaves the store and the cursor
    untouched, so it can be called again. *)
Theorem to_list_slice (cid : nat) (n : Z) (st : db) (data : list nat) :
  cursors st !! cid = Some data ->
  exists l rest,
    to_list cid (Some n) st = Ok (Some l, st) /\ data = l ++ rest /\
    Z.of_nat (length l) =
      (if Z.leb 0 n then Z.min n (Z.of_nat (length data))
       else Z.max 0 (Z.of_nat (length data) + n)).
Proof.
  intros Hc. unfold to_list. rewrite Hc. cbn [slice_limit]. unfold py_prefix.
  destruct (Z.leb 0 n) eqn:En.
  - exists (take (Z.to_nat n) data), (drop (Z.to_nat n) data).
    split; [reflexivity|]. split; [symmetry; apply take_drop|].
    rewrite length_take. apply Z.leb_le in En. lia.
  - set (k := Z.to_nat (Z.of_nat (length data) + n)).
    exists (take k data), (drop k data).
    split; [reflexivity|]. split; [symmetry; apply take_drop|].
    rewrite length_take. apply Z.leb_gt in En. unfold k. lia.
Qed.

(** ** [str.split] in the CORS setting *)

Lemma split_on_not_nil (sep : ascii) (s : string) : split_on sep s <> [].
Proof.
  destruct s as [|c r]; cbn; [discriminate|].
  destruct (Ascii.eqb c sep); [discriminate|].
  destruct (split_on sep r); discriminate.
Qed.

Lemma join_split (sep : ascii) (s : string) : join_with sep (split_on sep s) = s.
Proof.
  induction s as [|c r IH]; [reflexivity|].
  cbn [split_on]. pose proof (split_on_not_nil sep r) as Hn.
  destruct (Ascii.eqb c sep) eqn:Ec.
  - apply Ascii.eqb_eq in Ec. subst c.
    destruct (split_on sep r) as [|p ps] eqn:Es; [contradiction|].
    cbn [join_with]. rewrite <- IH. reflexivity.
  - destruct (split_on sep r) as [|p ps] eqn:Es; [contradiction|].
    destruct ps as [|p' ps'].
    + cbn in IH |- *. rewrite IH. reflexivity.
    + cbn [join_with] in IH |- *. rewrite <- IH. reflexivity.
Qed.

Lemma split_on_parts (sep : ascii) (s : string) :
  forall p, In p (split_on sep s) -> forall n, String.get n p <> Some sep.
Proof.
  induction s as [|c r IH]; intros p Hp n.
  - destruct Hp as [<-|[]]. discriminate.
  - cbn [split_on] in Hp. destruct (Ascii.eqb c sep) eqn:Ec.
    + destruct Hp as [<-|Hp]; [discriminate|exact (IH p Hp n)].
    + destruct (split_on sep r) as [|p0 ps] eqn:Es.
      * destruct Hp as [<-|[]]. destruct n as [|[|n]]; cbn; try discriminate.
        intros E. injection E as ->. rewrite Ascii.eqb_refl in Ec. discriminate.
      * destruct Hp as [<-|Hp].
        -- destruct n as [|n]; cbn.
           ++ intros E. injection E as ->. rewrite Ascii.eqb_refl in Ec. discriminate.
           ++ apply IH. left. reflexivity.
        -- apply IH. right. exact Hp.
Qed.

(** X6: splitting the [CORS_ORIGINS] value at commas loses nothing: the
    origin list is never empty, no origin contains a comma, and joining
    the origins with commas gives back the configured value. *)
Theorem cors_split_roundtrip (environ : gmap string string) :
  cors_origins_before environ <> [] /\
  (forall o, In o (cors_origins_before environ) -> forall n, String.get n o <> Some ","%char) /\
  join_with "," (cors_origins_before environ) = default "*"%string (environ !! "CORS_ORIGINS"%string).
Proof.
  unfold cors_origins_before. split; [apply split_on_not_nil|].
  split; [apply split_on_parts|apply join_split].
Qed.

(** X7: the fix changes the allowed origins exactly when [CORS_ORIGINS] is
    set to a value other than ["*"]. *)
Theorem cors_fix_equivalence (environ : gmap string string) :
  cors_origins_before environ = cors_origins_after <->
  environ !! "CORS_ORIGINS"%string = None \/ environ !! "CORS_ORIGINS"%string = Some "*"%string.
Proof.
  unfold cors_origins_before, cors_origins_after. split.
  - intros E. destruct (environ !! "CORS_ORIGINS"%string) as [v|]; [right|left; reflexivity].
    cbn [default id] in E. f_equal. rewrite <- (join_split "," v), E. reflexivity.
  - intros [E|E]; rewrite E; reflexivity.
Qed.

(** ** The [create_user] endpoint *)

(** A query on one ordinary key with a string is an equality test that
    never raises. *)
Lemma matches_key_str (d : doc) (k s : string) :
  String.eqb k "$or" = false ->
  matches d [(k, VStr s)] = Ok (opt_eqb (lookup_field k d) (VStr s)).
Proof.
  intros Hk. rewrite matches_cons, Hk. cbn [match_field].
  destruct (opt_eqb (lookup_field k d) (VStr s)); reflexivity.
Qed.

Lemma opt_eqb_str_refl (s : string) : opt_eqb (Some (VStr s)) (VStr s) = true.
Proof. cbn. apply String.eqb_refl. Qed.

(** The scan of [find_one] over a query that never raises. *)
Lemma first_match_decided (h : gmap nat doc) (q : doc) (ls : list nat) :
  (forall d, exists b, matches d q = Ok b) ->
  (first_match h q ls = Ok None /\
     forall l d, In l ls -> h !! l = Some d -> matches d q = Ok false) \/
  (exists l d, first_match h q ls = Ok (Some l) /\ In l ls /\ h !! l = Some d /\
     matches d q = Ok true).
Proof.
  intros Hdec. induction ls as [|l ls IH].
  - left. split; [reflexivity|intros ? ? []].
  - cbn [first_match]. destruct (h !! l) as [d|] eqn:Ed.
    + destruct (Hdec d) as [[|] Eb]; rewrite Eb.
      * right. exists l, d. split; [reflexivity|]. split; [left; reflexivity|auto].
      * destruct IH as [[E H]|(l' & d' & E & H)].
        -- left. split; [exact E|]. intros l0 d0 [<-|Hin] E0; [congruence|eauto].
        -- right. exists l', d'. split; [exact E|]. split; [right; apply H|apply H].
    + destruct IH as [[E H]|(l' & d' & E & H)].
      * left. split; [exact E|]. intros l0 d0 [<-|Hin] E0; [congruence|eauto].
      * right. exists l', d'. split; [exact E|]. split; [right; apply H|apply H].
Qed.

Lemma in_coll_docs_inv (st : db) (d : doc) :
  In d (coll_docs st) -> exists l, In l (coll st) /\ heap st !! l = Some d.
Proof.
  unfold coll_docs. induction (coll st) as [|l ls IH]; cbn; [intros []|].
  destruct (heap st !! l) as [d'|] eqn:E.
  - intros [<-|Hin]; [exists l; auto|]. destruct (IH Hin) as (l' & ? & ?). eauto.
  - intros Hin. destruct (IH Hin) as (l' & ? & ?). eauto.
Qed.

Lemma in_omap_inv {A B} (f : A -> option B) (l : list A) (y : B) :
  In y (omap f l) -> exists x, In x l /\ f x = Some y.
Proof.
  induction l as [|x l IH]; cbn; [intros []|].
  destruct (f x) as [y'|] eqn:E.
  - intros [<-|Hin]; [eauto|]. destruct (IH Hin) as (x' & ? & ?). eauto.
  - intros Hin. destruct (IH Hin) as (x' & ? & ?). eauto.
Qed.

Lemma lookup_field_in (k : string) (v : value) (d : doc) :
  lookup_field k d = Some v -> In (k, v) d.
Proof.
  induction d as [|[k' v'] d IH]; cbn; [discriminate|].
  destruct (String.eqb k k') eqn:E.
  - apply String.eqb_eq in E. subst. intros [= ->]. left. reflexivity.
  - intros H. right. exact (IH H).
Qed.

(** The copy returned for [{"_id": 0}] is truthy when the document has a
    key other than [_id]. *)
Lemma project_no_id_truthy (d : doc) (k : string) (v : value) :
  lookup_field k d = Some v -> String.eqb k "_id" = false ->
  doc_truthy (project (Some [("_id", VNum 0)]) d) = true.
Proof.
  intros Hl Hk. apply lookup_field_in in Hl.
  assert (Hin : In (k, v) (project (Some [("_id", VNum 0)]) d)).
  { cbn [project existsb snd truthy]. cbn -[List.filter].
    apply filter_In. split; [exact Hl|]. cbn. rewrite Hk. reflexivity. }
  destruct (project (Some [("_id", VNum 0)]) d); [destruct Hin|reflexivity].
Qed.

(** Allocation keeps the invariant and the collection's documents. *)
Lemma alloc_inv (d : doc) (st st' : db) (l : nat) :
  inv st -> alloc d st = Ok (l, st') ->
  inv st' /\ coll st' = coll st /\ coll_docs st' = coll_docs st /\
  l = next_loc st /\ heap st' !! l = Some d.
Proof.
  intros [I1 I2] H. unfold alloc in H. injection H as <- <-.
  split; [split|].
  - cbn. intros l Hl. apply I1 in Hl. lia.
  - cbn. intros c data Hc. destruct (I2 c data Hc) as [Hc' Hd]. split; [exact Hc'|].
    intros l Hl. destruct (Hd l Hl). split; [lia|assumption].
  - split; [reflexivity|]. split; [|split; [reflexivity|apply lookup_insert_eq]].
    unfold coll_docs. cbn [heap coll]. apply omap_heap_ext.
    intros l Hl. apply lookup_insert_ne. apply I1 in Hl. lia.
Qed.

Lemma find_one_inv (q : doc) (p : option doc) (st st' : db) (o : option nat) :
  inv st -> find_one q p st = Ok (o, st') -> inv st' /\ coll_docs st' = coll_docs st.
Proof.
  intros I H. unfold find_one, bind, gets, lift, ret in H.
  destruct (first_match (heap st) q (coll st)) as [[l|]|e]; [|injection H as _ <-; auto|discriminate].
  destruct (heap st !! l) as [d|]; [|injection H as _ <-; auto].
  destruct (alloc (project p d) st) as [[l' st1]|e] eqn:Ea; [|discriminate].
  injection H as _ <-. destruct (alloc_inv _ _ _ _ I Ea) as (I' & _ & Hd & _). auto.
Qed.

(** [insert_one] keeps the invariant and appends the stored document; an
    existing [id] is kept, and no other key is touched. *)
Lemma insert_inv (uuid : nat -> string) (d d' : doc) (st st' : db) :
  inv st -> insert uuid d st = Ok (d', st') ->
  inv st' /\ coll_docs st' = coll_docs st ++ [d'] /\
  (lookup_field "id" d <> None -> d' = d) /\
  (forall k, String.eqb k "id" = false -> lookup_field k d' = lookup_field k d).
Proof.
  intros [I1 I2] H. unfold insert in H.
  assert (Hgen : forall d1 ctr,
    let st1 := mkDB (<[next_loc st := d1]> (heap st)) (S (next_loc st))
                    (coll st ++ [next_loc st]) (cursors st) (next_cur st) ctr in
    inv st1 /\ coll_docs st1 = coll_docs st ++ [d1]).
  { intros d1 ctr st1. split; [split|].
    - cbn. intros l Hl. apply in_app_or in Hl as [Hl|[<-|[]]]; [apply I1 in Hl|]; lia.
    - cbn. intros c data Hc. destruct (I2 c data Hc) as [Hc' Hdata]. split; [exact Hc'|].
      intros l Hl. destruct (Hdata l Hl) as [Hlt Hn]. split; [lia|].
      intros Hin. apply in_app_or in Hin as [Hin|[<-|[]]]; [contradiction|lia].
    - unfold coll_docs, st1. cbn [heap coll]. rewrite omap_app. f_equal.
      + apply omap_heap_ext. intros l Hl. apply lookup_insert_ne. apply I1 in Hl. lia.
      + cbn. rewrite lookup_insert_eq. reflexivity. }
  destruct (lookup_field "id" d) as [v|] eqn:Eid; cbv beta iota zeta in H;
    injection H as <- <-; (split; [apply Hgen|split; [apply Hgen|]]).
  - split; reflexivity.
  - split; [intros []; reflexivity|]. intros k Hk.
    destruct (lookup_field k d) as [v|] eqn:Ek.
    + clear Hgen. induction d as [|[k' v'] d IH]; [discriminate|]. cbn [lookup_field List.app] in Ek, Eid |- *.
      destruct (String.eqb k k'); [exact Ek|].
      destruct (String.eqb "id" k'); [discriminate|]. auto.
    + rewrite lookup_field_app_none by exact Ek. cbn. rewrite Hk. reflexivity.
Qed.

Lemma insert_ok (uuid : nat -> string) (d : doc) (st : db) :
  exists d' st', insert uuid d st = Ok (d', st').
Proof. unfold insert. destruct (lookup_field "id" d); eexists; eexists; reflexivity. Qed.

(** The alert loop keeps the invariant and only appends alerts. *)
Lemma store_alerts_app (uuid : nat -> string) (fraud_doc : doc -> result doc)
    (alerts : list doc) (fa : db) :
  inv fa -> inv (store_alerts uuid fraud_doc alerts fa) /\
  exists new, coll_docs (store_alerts uuid fraud_doc alerts fa) = coll_docs fa ++ new.
Proof.
  revert fa. induction alerts as [|a alerts IH]; intros fa I; cbn [store_alerts].
  - split; [exact I|]. exists []. rewrite app_nil_r. reflexivity.
  - destruct (fraud_doc a) as [fd|e]; [|split; [exact I|exists []; rewrite app_nil_r; reflexivity]].
    destruct (insert_ok uuid fd fa) as (d' & fa' & Ei). rewrite Ei.
    destruct (insert_inv _ _ _ _ _ I Ei) as (I' & Hc & _).
    destruct (IH fa' I') as (I'' & new & Hn). split; [exact I''|].
    exists (d' :: new). rewrite Hn, Hc, <- app_assoc. reflexivity.
Qed.

(** When every alert is built, with its own [id], they are all stored,
    in order. *)
Lemma store_alerts_all (uuid : nat -> string) (fraud_doc : doc -> result doc)
    (alerts fds : list doc) (fa : db) :
  Forall2 (fun a fd => fraud_doc a = Ok fd /\ lookup_field "id" fd <> None) alerts fds ->
  inv fa -> coll_docs (store_alerts uuid fraud_doc alerts fa) = coll_docs fa ++ fds.
Proof.
  intros H. revert fa. induction H as [|a fd alerts fds [Ha Hid] _ IH]; intros fa I; cbn [store_alerts].
  - rewrite app_nil_r. reflexivity.
  - rewrite Ha. destruct (insert_ok uuid fd fa) as (d' & fa' & Ei). rewrite Ei.
    destruct (insert_inv _ _ _ _ _ I Ei) as (I' & Hc & Hkeep & _).
    rewrite (IH fa' I'), Hc, (Hkeep Hid), <- app_assoc. reflexivity.
Qed.

Lemma run_fraud_detection_users (uuid : nat -> string)
    (detect_fraud_rules : app_state -> value -> result (list doc))
    (fraud_doc : doc -> result doc) (user_obj : doc) (st : app_state) :
  users (run_fraud_detection uuid detect_fraud_rules fraud_doc user_obj st) = users st.
Proof.
  unfold run_fraud_detection. destruct (lookup_field "id" user_obj); [|reflexivity].
  destruct (detect_fraud_rules st v); reflexivity.
Qed.

Lemma aadhaar_query_decided (s : string) :
  forall d, exists b, matches d [("aadhaar_id", VStr s)] = Ok b.
Proof. intros d. eexists. apply matches_key_str. reflexivity. Qed.

Section create_user_props.
Variable uuid : nat -> string.
Variable ration_user : doc -> doc.
Variable isoformat : value -> value.
Variable detect_fraud_rules : app_state -> value -> result (list doc).
Variable fraud_doc : doc -> result doc.

Local Abbreviation create := (create_user uuid ration_user isoformat detect_fraud_rules fraud_doc).
Local Abbreviation fraud_step := (run_fraud_detection uuid detect_fraud_rules fraud_doc).

(** The path of a new Aadhaar number through the endpoint. *)
Lemma create_user_fresh (user : doc) (st : app_state) (s : string) (c i : value) :
  inv (users st) ->
  lookup_field "aadhaar_id" user = Some (VStr s) ->
  (forall d, In d (coll_docs (users st)) -> lookup_field "aadhaar_id" d <> Some (VStr s)) ->
  lookup_field "created_at" (ration_user user) = Some c ->
  lookup_field "id" (ration_user user) = Some i ->
  exists u2, inv u2 /\
    coll_docs u2 = coll_docs (users st) ++ [set_field "created_at" (isoformat c) (ration_user user)] /\
    create user st = (Created (ration_user user), fraud_step (ration_user user) (mkApp u2 (fraud_alerts st))).
Proof.
  intros I Ha Hfresh Hc Hi. unfold create_user. rewrite Ha.
  destruct (first_match_decided (heap (users st)) _ (coll (users st)) (aadhaar_query_decided s))
    as [[E _]|(l & d & _ & Hin & Hd & Hm)].
  - assert (Hf : find_one [("aadhaar_id", VStr s)] (Some [("_id", VNum 0)]) (users st) =
                 Ok (None, users st)).
    { unfold find_one, bind, gets, lift, ret. rewrite E. reflexivity. }
    rewrite Hf. cbv beta iota zeta. rewrite Hc.
    set (d := set_field "created_at" (isoformat c) (ration_user user)).
    destruct (insert_ok uuid d (users st)) as (d' & u2 & Ei). rewrite Ei.
    destruct (insert_inv _ _ _ _ _ I Ei) as (I2 & Hcd & Hkeep & _).
    assert (Hd' : d' = d).
    { apply Hkeep. unfold d. rewrite lookup_set_field. cbn [String.eqb Ascii.eqb Bool.eqb].
      rewrite Hi. discriminate. }
    subst d'. exists u2. split; [exact I2|]. split; [exact Hcd|reflexivity].
  - exfalso. rewrite matches_key_str in Hm by reflexivity. injection Hm as Hm.
    exact (Hfresh d (in_coll_docs _ _ _ Hin Hd) (opt_eqb_str _ _ Hm)).
Qed.

(** X8: creating a user whose Aadhaar number is new returns the user
    object and appends exactly its document (with [created_at] converted)
    to the users collection, whatever fraud detection does; the fraud
    alerts collection only gains documents. *)
Theorem create_user_stores_user (user : doc) (st : app_state) (s : string) (c i : value) :
  inv (users st) -> inv (fraud_alerts st) ->
  lookup_field "aadhaar_id" user = Some (VStr s) ->
  (forall d, In d (coll_docs (users st)) -> lookup_field "aadhaar_id" d <> Some (VStr s)) ->
  lookup_field "created_at" (ration_user user) = Some c ->
  lookup_field "id" (ration_user user) = Some i ->
  exists st', create user st = (Created (ration_user user), st') /\
    coll_docs (users st') =
      coll_docs (users st) ++ [set_field "created_at" (isoformat c) (ration_user user)] /\
    exists new, coll_docs (fraud_alerts st') = coll_docs (fraud_alerts st) ++ new.
Proof.
  intros I If Ha Hfresh Hc Hi.
  destruct (create_user_fresh user st s c i I Ha Hfresh Hc Hi) as (u2 & _ & Hcd & E).
  rewrite E. eexists. split; [reflexivity|].
  rewrite run_fraud_detection_users. split; [exact Hcd|].
  unfold run_fraud_detection. rewrite Hi.
  destruct (detect_fraud_rules _ i) as [alerts|e].
  - exact (proj2 (store_alerts_app uuid fraud_doc alerts _ If)).
  - exists []. rewrite app_nil_r. reflexivity.
Qed.

(** X9: when fraud detection raises (as it did with the [to_list]
    bug), the user is still created and no fraud alert is stored. *)
Theorem create_user_survives_fraud_error (user : doc) (st : app_state) (s : string)
    (c i : value) (e : error) :
  inv (users st) ->
  lookup_field "aadhaar_id" user = Some (VStr s) ->
  (forall d, In d (coll_docs (users st)) -> lookup_field "aadhaar_id" d <> Some (VStr s)) ->
  lookup_field "created_at" (ration_user user) = Some c ->
  lookup_field "id" (ration_user user) = Some i ->
  (forall st0, detect_fraud_rules st0 i = Err e) ->
  exists st', create user st = (Created (ration_user user), st') /\
    coll_docs (users st') =
      coll_docs (users st) ++ [set_field "created_at" (isoformat c) (ration_user user)] /\
    fraud_alerts st' = fraud_alerts st.
Proof.
  intros I Ha Hfresh Hc Hi Hdet.
  destruct (create_user_fresh user st s c i I Ha Hfresh Hc Hi) as (u2 & _ & Hcd & E).
  rewrite E. eexists. split; [reflexivity|].
  rewrite run_fraud_detection_users. split; [exact Hcd|].
  unfold run_fraud_detection. rewrite Hi, Hdet. reflexivity.
Qed.

(** X10: when fraud detection returns alerts and each one is built, they
    are all stored in the fraud alerts collection, in order. *)
Theorem create_user_stores_alerts (user : doc) (st : app_state) (s : string)
    (c i : value) (alerts fds : list doc) :
  inv (users st) -> inv (fraud_alerts st) ->
  lookup_field "aadhaar_id" user = Some (VStr s) ->
  (forall d, In d (coll_docs (users st)) -> lookup_field "aadhaar_id" d <> Some (VStr s)) ->
  lookup_field "created_at" (ration_user user) = Some c ->
  lookup_field "id" (ration_user user) = Some i ->
  (forall st0, detect_fraud_rules st0 i = Ok alerts) ->
  Forall2 (fun a fd => fraud_doc a = Ok fd /\ lookup_field "id" fd <> None) alerts fds ->
  exists st', create user st = (Created (ration_user user), st') /\
    coll_docs (fraud_alerts st') = coll_docs (fraud_alerts st) ++ fds.
Proof.
  intros I If Ha Hfresh Hc Hi Hdet Hfd.
  destruct (create_user_fresh user st s c i I Ha Hfresh Hc Hi) as (u2 & _ & _ & E).
  rewrite E. eexists. split; [reflexivity|].
  unfold run_fraud_detection. rewrite Hi, Hdet. cbn [fraud_alerts].
  exact (store_alerts_all uuid fraud_doc alerts fds _ Hfd If).
Qed.

(** The path of an Aadhaar number already stored. *)
Lemma create_user_found (user : doc) (st : app_state) (s : string) (d : doc) :
  inv (users st) ->
  lookup_field "aadhaar_id" user = Some (VStr s) ->
  In d (coll_docs (users st)) -> lookup_field "aadhaar_id" d = Some (VStr s) ->
  exists st', create user st = (HTTPException 400 "Aadhaar ID already registered", st') /\
    coll_docs (users st') = coll_docs (users st) /\ fraud_alerts st' = fraud_alerts st.
Proof.
  intros I Ha Hin Hd. unfold create_user. rewrite Ha.
  destruct (first_match_decided (heap (users st)) _ (coll (users st)) (aadhaar_query_decided s))
    as [[E Hno]|(l & d0 & E & Hl & Hd0 & Hm)].
  - exfalso. destruct (in_coll_docs_inv _ _ Hin) as (l & Hl & Hh).
    pose proof (Hno l d Hl Hh) as Hf. rewrite matches_key_str, Hd, opt_eqb_str_refl in Hf
      by reflexivity. discriminate.
  - rewrite matches_key_str in Hm by reflexivity. injection Hm as Hm.
    apply opt_eqb_str in Hm.
    destruct (alloc (project (Some [("_id", VNum 0)]) d0) (users st)) as [[l' u1]|e] eqn:Ea;
      [|discriminate].
    destruct (alloc_inv _ _ _ _ I Ea) as (_ & _ & Hcd & _ & Hh).
    assert (Hf : find_one [("aadhaar_id", VStr s)] (Some [("_id", VNum 0)]) (users st) =
                 Ok (Some l', u1)).
    { unfold find_one, bind, gets, lift, ret. rewrite E, Hd0. cbv beta. rewrite Ea. reflexivity. }
    rewrite Hf. cbv beta iota zeta. rewrite Hh.
    rewrite (project_no_id_truthy d0 "aadhaar_id" (VStr s) Hm) by reflexivity.
    eexists. split; [reflexivity|]. split; [exact Hcd|reflexivity].
Qed.

(** X11: an Aadhaar number already stored is refused with status 400;
    the users collection keeps its documents and no fraud alert is
    written. *)
Theorem create_user_rejects_duplicate (user : doc) (st : app_state) (s : string) (d : doc) :
  inv (users st) ->
  lookup_field "aadhaar_id" user = Some (VStr s) ->
  In d (coll_docs (users st)) -> lookup_field "aadhaar_id" d = Some (VStr s) ->
  exists st', create user st = (HTTPException 400 "Aadhaar ID already registered", st') /\
    coll_docs (users st') = coll_docs (users st) /\ fraud_alerts st' = fraud_alerts st.
Proof. exact (create_user_found user st s d). Qed.

(** X12: creating the same user twice: the first call stores it, the
    second is refused with status 400 and stores nothing. *)
Theorem create_user_twice_refused (user : doc) (st : app_state) (s : string) (c i : value) :
  inv (users st) ->
  lookup_field "aadhaar_id" user = Some (VStr s) ->
  (forall d, In d (coll_docs (users st)) -> lookup_field "aadhaar_id" d <> Some (VStr s)) ->
  lookup_field "created_at" (ration_user user) = Some c ->
  lookup_field "id" (ration_user user) = Some i ->
  lookup_field "aadhaar_id" (ration_user user) = Some (VStr s) ->
  exists st', create user st = (Created (ration_user user), st') /\
    exists st'', create user st' = (HTTPException 400 "Aadhaar ID already registered", st'') /\
      coll_docs (users st'') = coll_docs (users st').
Proof.
  intros I Ha Hfresh Hc Hi Hra.
  destruct (create_user_fresh user st s c i I Ha Hfresh Hc Hi) as (u2 & I2 & Hcd & E).
  rewrite E. eexists. split; [reflexivity|].
  destruct (create_user_found user (fraud_step (ration_user user) (mkApp u2 (fraud_alerts st)))
              s (set_field "created_at" (isoformat c) (ration_user user)))
    as (st'' & E2 & Hcd2 & _).
  - rewrite run_fraud_detection_users. exact I2.
  - exact Ha.
  - rewrite run_fraud_detection_users. cbn [users]. rewrite Hcd.
    apply in_or_app. right. left. reflexivity.
  - rewrite lookup_set_field. cbn [String.eqb Ascii.eqb Bool.eqb]. exact Hra.
  - exists st''. split; [exact E2|exact Hcd2].
Qed.

(** X13: the endpoint keeps string Aadhaar numbers unique in the users
    collection, provided the user model copies the [aadhaar_id] of its
    input. *)
Theorem create_user_keeps_aadhaar_unique (user : doc) (st : app_state) :
  (forall u, lookup_field "aadhaar_id" (ration_user u) = lookup_field "aadhaar_id" u) ->
  inv (users st) ->
  List.NoDup (aadhaar_ids (users st)) ->
  List.NoDup (aadhaar_ids (users (snd (create user st)))).
Proof.
  intros Hru I Hnd. unfold create_user.
  destruct (lookup_field "aadhaar_id" user) as [v|] eqn:Ha; [|exact Hnd].
  destruct (find_one [("aadhaar_id", v)] (Some [("_id", VNum 0)]) (users st))
    as [[existing u1]|e] eqn:Ef; [|exact Hnd].
  destruct (find_one_inv _ _ _ _ _ I Ef) as (I1 & Hcd1).
  assert (Hids1 : aadhaar_ids u1 = aadhaar_ids (users st)) by (unfold aadhaar_ids; rewrite Hcd1; reflexivity).
  cbv beta iota zeta.
  destruct (match existing with
            | Some l => match heap u1 !! l with Some d => doc_truthy d | None => false end
            | None => false
            end) eqn:Efound; cbn [snd users]; [rewrite Hids1; exact Hnd|].
  destruct (lookup_field "created_at" (ration_user user)) as [c|]; cbn [snd users];
    [|rewrite Hids1; exact Hnd].
  set (d := set_field "created_at" (isoformat c) (ration_user user)).
  destruct (insert_ok uuid d u1) as (d' & u2 & Ei). rewrite Ei. cbn [snd].
  rewrite run_fraud_detection_users. cbn [users].
  destruct (insert_inv _ _ _ _ _ I1 Ei) as (_ & Hcd2 & _ & Hother).
  assert (Hav : lookup_field "aadhaar_id" d' = Some v).
  { rewrite Hother by reflexivity. unfold d. rewrite lookup_set_field.
    cbn [String.eqb Ascii.eqb Bool.eqb]. rewrite Hru. exact Ha. }
  unfold aadhaar_ids. rewrite Hcd2, omap_app. simpl (omap _ [d']). rewrite Hav.
  fold (aadhaar_ids u1). rewrite Hids1.
  destruct v as [s| | | | |]; cbn [omap]; try (rewrite app_nil_r; exact Hnd).
  (* a string Aadhaar number: the duplicate check found no stored copy *)
  apply (Permutation_NoDup (Permutation_cons_append _ _)). constructor; [|exact Hnd].
  intros Hs. destruct (in_omap_inv _ _ _ Hs) as (d0 & Hin & Hd0).
  destruct (lookup_field "aadhaar_id" d0) as [[s0| | | | |]|] eqn:E0; try discriminate.
  injection Hd0 as ->.
  destruct (in_coll_docs_inv _ _ Hin) as (l & Hl & Hh).
  destruct (first_match_decided (heap (users st)) _ (coll (users st)) (aadhaar_query_decided s))
    as [[E Hno]|(l0 & d1 & E & Hl0 & Hd1 & Hm)].
  - pose proof (Hno l d0 Hl Hh) as Hf. rewrite matches_key_str, E0, opt_eqb_str_refl in Hf
      by reflexivity. discriminate.
  - rewrite matches_key_str in Hm by reflexivity. injection Hm as Hm. apply opt_eqb_str in Hm.
    unfold find_one, bind, gets, lift, ret in Ef. rewrite E, Hd1 in Ef. cbv beta in Ef.
    destruct (alloc (project (Some [("_id", VNum 0)]) d1) (users st)) as [[l' u1']|e] eqn:Ea;
      [|discriminate].
    injection Ef as <- <-. destruct (alloc_inv _ _ _ _ I Ea) as (_ & _ & _ & _ & Hh').
    rewrite Hh', (project_no_id_truthy d1 "aadhaar_id" (VStr s) Hm) in Efound by reflexivity.
    discriminate.
Qed.
End create_user_props.

(** ** Examples *)

Lemma demo_app_inv : inv (users demo_app).
Proof.
  apply (reachable_inv demo_uuid). apply (run_ops_reachable demo_uuid demo_ab empty_db).
  - apply reach_init.
  - reflexivity.
Qed.

Lemma demo_app_fresh :
  forall d, In d (coll_docs (users demo_app)) ->
  lookup_field "aadhaar_id" d <> Some (VStr "123456789012").
Proof. intros d Hd. vm_compute in Hd. destruct Hd as [<-|[<-|[]]]; vm_compute; discriminate. Qed.

(** X3: a later clause that would raise ([1]) is never evaluated. *)
Lemma or_stops_at_first_match_witness :
  matches alice [("$or", VList ([VDoc [("name", VStr "Bob")]] ++
                                  VDoc [("name", VStr "Alice")] :: [VNum 1]));
                 ("aadhaar_id", VStr "A1")] =
  matches alice [("aadhaar_id", VStr "A1")].
Proof.
  apply or_stops_at_first_match.
  - constructor; [reflexivity|constructor].
  - reflexivity.
Defined.

(** X4: a later key with an unknown operator is never evaluated. *)
Lemma or_no_clause_stops_witness :
  matches alice [("$or", VList [VDoc [("name", VStr "Bob")]]);
                 ("name", VDoc [("$where", VNum 0)])] = Ok false.
Proof. apply or_no_clause_stops. constructor; [reflexivity|constructor]. Defined.

(** X5: [to_list(-1)] on a cursor of three documents. *)
Lemma to_list_slice_witness :
  exists l rest,
    to_list 0 (Some (-1)%Z) (demo_state demo_distinct) = Ok (Some l, demo_state demo_distinct) /\
    [3; 4; 5]%nat = l ++ rest /\
    Z.of_nat (length l) =
      (if Z.leb 0 (-1) then Z.min (-1) (Z.of_nat (length [3; 4; 5]%nat))
       else Z.max 0 (Z.of_nat (length [3; 4; 5]%nat) + (-1))).
Proof. apply to_list_slice. reflexivity. Defined.

(** X8: the notes' test user on a store holding Alice and Bob. *)
Lemma create_user_stores_user_witness :
  exists st', create_user demo_uuid demo_ration_user demo_isoformat demo_detect_alerts
                demo_fraud_doc test_user demo_app = (Created (demo_ration_user test_user), st') /\
    coll_docs (users st') =
      coll_docs (users demo_app) ++
        [set_field "created_at" (demo_isoformat (VNum 7)) (demo_ration_user test_user)] /\
    exists new, coll_docs (fraud_alerts st') = coll_docs (fraud_alerts demo_app) ++ new.
Proof.
  apply (create_user_stores_user demo_uuid demo_ration_user demo_isoformat demo_detect_alerts
           demo_fraud_doc test_user demo_app "123456789012" (VNum 7) (VStr "u1")).
  - exact demo_app_inv.
  - exact inv_empty.
  - reflexivity.
  - exact demo_app_fresh.
  - reflexivity.
  - reflexivity.
Defined.

(** X9: fraud detection raising a type error. *)
Lemma create_user_survives_fraud_error_witness :
  exists st', create_user demo_uuid demo_ration_user demo_isoformat demo_detect_error
                demo_fraud_doc test_user demo_app = (Created (demo_ration_user test_user), st') /\
    coll_docs (users st') =
      coll_docs (users demo_app) ++
        [set_field "created_at" (demo_isoformat (VNum 7)) (demo_ration_user test_user)] /\
    fraud_alerts st' = fraud_alerts demo_app.
Proof.
  apply (create_user_survives_fraud_error demo_uuid demo_ration_user demo_isoformat
           demo_detect_error demo_fraud_doc test_user demo_app "123456789012" (VNum 7)
           (VStr "u1") TypeError).
  - exact demo_app_inv.
  - reflexivity.
  - exact demo_app_fresh.
  - reflexivity.
  - reflexivity.
  - intros st0. reflexivity.
Defined.

(** X10: fraud detection reporting one alert. *)
Lemma create_user_stores_alerts_witness :
  exists st', create_user demo_uuid demo_ration_user demo_isoformat demo_detect_alerts
                demo_fraud_doc test_user demo_app = (Created (demo_ration_user test_user), st') /\
    coll_docs (fraud_alerts st') =
      coll_docs (fraud_alerts demo_app) ++
        [[("rule", VStr "duplicate_card"); ("user_id", VStr "u1"); ("id", VStr "alert-1")]].
Proof.
  apply (create_user_stores_alerts demo_uuid demo_ration_user demo_isoformat
           demo_detect_alerts demo_fraud_doc test_user demo_app "123456789012" (VNum 7)
           (VStr "u1") [[("rule", VStr "duplicate_card"); ("user_id", VStr "u1")]]).
  - exact demo_app_inv.
  - exact inv_empty.
  - reflexivity.
  - exact demo_app_fresh.
  - reflexivity.
  - reflexivity.
  - intros st0. reflexivity.
  - constructor; [split; [reflexivity|discriminate]|constructor].
Defined.

(** X11: a user with Bob's Aadhaar number. *)
Lemma create_user_rejects_duplicate_witness :
  exists st', create_user demo_uuid demo_ration_user demo_isoformat demo_detect_alerts
                demo_fraud_doc [("aadhaar_id", VStr "A2"); ("name", VStr "Robert")] demo_app =
              (HTTPException 400 "Aadhaar ID already registered", st') /\
    coll_docs (users st') = coll_docs (users demo_app) /\ fraud_alerts st' = fraud_alerts demo_app.
Proof.
  apply (create_user_rejects_duplicate demo_uuid demo_ration_user demo_isoformat
           demo_detect_alerts demo_fraud_doc _ demo_app "A2" (bob ++ [("id", VStr "1-uuid")])).
  - exact demo_app_inv.
  - reflexivity.
  - vm_compute. right. left. reflexivity.
  - reflexivity.
Defined.

(** X12: the notes' test user created twice. *)
Lemma create_user_twice_refused_witness :
  exists st', create_user demo_uuid demo_ration_user demo_isoformat demo_detect_alerts
                demo_fraud_doc test_user demo_app = (Created (demo_ration_user test_user), st') /\
    exists st'', create_user demo_uuid demo_ration_user demo_isoformat demo_detect_alerts
                   demo_fraud_doc test_user st' =
                 (HTTPException 400 "Aadhaar ID already registered", st'') /\
      coll_docs (users st'') = coll_docs (users st').
Proof.
  apply (create_user_twice_refused demo_uuid demo_ration_user demo_isoformat
           demo_detect_alerts demo_fraud_doc test_user demo_app "123456789012" (VNum 7) (VStr "u1")).
  - exact demo_app_inv.
  - reflexivity.
  - exact demo_app_fresh.
  - reflexivity.
  - reflexivity.
  - reflexivity.
Defined.

(** X13: the notes' test user on a store holding Alice and Bob. *)
Lemma create_user_keeps_aadhaar_unique_witness :
  List.NoDup (aadhaar_ids (users (snd (create_user demo_uuid demo_ration_user demo_isoformat
                                         demo_detect_alerts demo_fraud_doc test_user demo_app)))).
Proof.
  apply create_user_keeps_aadhaar_unique.
  - intros u. unfold demo_ration_user. induction u as [|[k v] u IH]; [reflexivity|].
    cbn [lookup_field List.app]. destruct (String.eqb "aadhaar_id" k); [reflexivity|exact IH].
  - exact demo_app_inv.
  - vm_compute. repeat (apply List.NoDup_cons; [cbn; intuition discriminate|]).
    apply List.NoDup_nil.
Defined.
